(** * Discrete martingales: coin-toss paths, conditional expectations and
      the doubling betting strategy

    A shallow embedding of [src/conditional_expectation.py] and
    [src/martingales.py].

    - NumPy integer arrays hold signed 64-bit integers ([int64], the dtype
      of [np.random.choice([-1, 1], ...)] and of what [np.zeros_like] and
      [np.cumsum] make of it): every arithmetic result is reduced by [wrap].
    - A 2-D array is a list of rows; element access follows NumPy's index
      rule (a negative index counts from the end, anything else out of range
      raises [IndexError]).
    - Exceptions are values of [result].
    - The draw of [np.random.choice] is an input of the simulator.
    - [np.mean] is an input of the estimators and of the checker; the
      comparison of the checker is IEEE binary64 ([PrimFloat]). *)

From Stdlib Require Import ZArith List Lia Bool PrimFloat SpecFloat FloatOps.
From stdpp Require Import base numbers list gmap.

Local Open Scope Z_scope.

(** ** Exceptions *)

Inductive exn : Type :=
| ValueError
| IndexError.

Inductive result (A : Type) : Type :=
| Ok (a : A)
| Raise (e : exn).

Arguments Ok {A} a.
Arguments Raise {A} e.

Definition bind {A B} (m : result A) (f : A -> result B) : result B :=
  match m with
  | Ok a => f a
  | Raise e => Raise e
  end.

Notation "'let!' x ':=' m 'in' k" := (bind m (fun x => k))
  (at level 10, x name, m at level 100, k at level 200).

(** ** Signed 64-bit integers *)

Definition int_bits : Z := 64.
Definition int_min : Z := - 2 ^ (int_bits - 1).
Definition int_max : Z := 2 ^ (int_bits - 1) - 1.

(** Two's complement reduction of a mathematical integer. *)
Definition wrap (z : Z) : Z :=
  (z + 2 ^ (int_bits - 1)) mod 2 ^ int_bits - 2 ^ (int_bits - 1).

Definition int_add (a b : Z) : Z := wrap (a + b).
Definition int_mul (a b : Z) : Z := wrap (a * b).

Definition in_range (z : Z) : Prop := int_min <= z <= int_max.

(** ** Arrays *)

Abbreviation row := (list Z).
Abbreviation matrix := (list (list Z)).

(** [range(n)] *)
Definition py_range (n : Z) : list Z := Z.of_nat <$> seq 0 (Z.to_nat n).

(** NumPy's index rule on an axis of length [len]. *)
Definition norm_index (len : nat) (k : Z) : result nat :=
  if (0 <=? k) && (k <? Z.of_nat len) then Ok (Z.to_nat k)
  else if (- Z.of_nat len <=? k) && (k <? 0) then Ok (Z.to_nat (Z.of_nat len + k))
  else Raise IndexError.

Definition lookup_or_raise {A} (l : list A) (k : nat) : result A :=
  match l !! k with
  | Some a => Ok a
  | None => Raise IndexError
  end.

(** [r[k]] *)
Definition getitem {A} (r : list A) (k : Z) : result A :=
  let! j := norm_index (length r) k in
  lookup_or_raise r j.

(** [M[i, j]] *)
Definition getitem2 {A} (M : list (list A)) (i j : Z) : result A :=
  let! r := getitem M i in
  getitem r j.

(** [M[i, j] = v] *)
Definition setitem2 {A} (M : list (list A)) (i j : Z) (v : A) : result (list (list A)) :=
  let! i' := norm_index (length M) i in
  let! r := lookup_or_raise M i' in
  let! j' := norm_index (length r) j in
  Ok (<[i' := <[j' := v]> r]> M).

(** [np.zeros_like(M)] *)
Definition zeros_like (M : matrix) : matrix := (fun r : row => (fun _ => 0) <$> r) <$> M.

(** [M[:, j]] *)
Fixpoint column {A} (M : list (list A)) (j : Z) : result (list A) :=
  match M with
  | [] => Ok []
  | r :: M' => let! a := getitem r j in let! c := column M' j in Ok (a :: c)
  end.

(** A [for] loop over a list, threading the state and stopping at the first
    exception. *)
Fixpoint for_each {A S} (l : list A) (body : A -> S -> result S) (s : S) : result S :=
  match l with
  | [] => Ok s
  | a :: l' => let! s' := body a s in for_each l' body s'
  end.

(** ** [simulate_martingale_betting_strategy] *)

(** The variables of the function that the loops change. *)
Record sim_state : Type := SimState {
  betting : bool;
  B : matrix;
  W : matrix
}.

(** The body of the inner loop (lines 31-47) at path [i] and step [t]. *)
Definition step (X : matrix) (i t : Z) (s : sim_state) : result sim_state :=
  if negb (betting s) then
    let! B1 := setitem2 (B s) i t 0 in
    let! w := getitem2 (W s) i (t - 1) in
    let! W1 := setitem2 (W s) i t w in
    Ok (SimState false B1 W1)
  else
    let! bB := (if t =? 0 then
            let! B1 := setitem2 (B s) i t 1 in
            Ok (true, B1)
          else
            let! x := getitem2 X i (t - 1) in
            if x =? -1 then
              let! b := getitem2 (B s) i (t - 1) in
              let! B1 := setitem2 (B s) i t (int_mul 2 b) in
              Ok (true, B1)
            else
              let! B1 := setitem2 (B s) i t 0 in
              Ok (false, B1)) in
    let! b := getitem2 bB.2 i t in
    let! x := getitem2 X i t in
    let delta := int_mul b x in
    let! w := (if 0 <? t then
           let! w' := getitem2 (W s) i (t - 1) in
           Ok (int_add w' delta)
         else Ok delta) in
    let! W1 := setitem2 (W s) i t w in
    Ok (SimState bB.1 bB.2 W1).

(** One pass of the outer loop (lines 29-47): path [i], all steps. *)
Definition simulate_path (X : matrix) (n_steps i : Z) (BW : matrix * matrix)
  : result (matrix * matrix) :=
  let! s := for_each (py_range n_steps) (step X i) (SimState true BW.1 BW.2) in
  Ok (B s, W s).

(** The function, given the tosses [X] that [np.random.choice] drew with
    [size=(n_paths, n_steps)]. *)
Definition simulate_martingale_betting_strategy (n_paths n_steps : Z) (X : matrix)
  : result (matrix * matrix * matrix) :=
  let! BW := for_each (py_range n_paths) (simulate_path X n_steps) (zeros_like X, zeros_like X) in
  Ok (X, BW.1, BW.2).

(** The variables on entering the inner loop body at path [i] and step [t]:
    paths [0..i-1] are done, and so are steps [0..t-1] of path [i]. *)
Definition state_entering (X : matrix) (n_steps i t : Z) : result sim_state :=
  let! BW := for_each (py_range i) (simulate_path X n_steps) (zeros_like X, zeros_like X) in
  for_each (py_range t) (step X i) (SimState true BW.1 BW.2).

(** [X] has the shape [(n_paths, n_steps)]. *)
Definition has_shape {A} (X : list (list A)) (n_paths n_steps : Z) : Prop :=
  Z.of_nat (length X) = n_paths /\
  0 <= n_steps /\
  Forall (fun r => Z.of_nat (length r) = n_steps) X.

(** Every entry is a coin toss. *)
Definition is_toss_matrix (X : matrix) : Prop :=
  Forall (Forall (fun x => x = -1 \/ x = 1)) X.

(** ** [check_martingale_property_by_time] *)

(** A 2-D [ndarray]: its [shape] and its rows. *)
Record ndarray (E : Type) : Type := NdArray {
  shape0 : Z;
  shape1 : Z;
  rows_of : list (list E)
}.

Arguments NdArray {E} shape0 shape1 rows_of.
Arguments shape0 {E} _.
Arguments shape1 {E} _.
Arguments rows_of {E} _.

(** The rows agree with the shape, and each dimension fits NumPy's signed
    64-bit [npy_intp]. *)
Definition wf_ndarray {E} (a : ndarray E) : Prop :=
  has_shape (rows_of a) (shape0 a) (shape1 a) /\
  shape0 a <= int_max /\ shape1 a <= int_max.

(** The body of the loop (lines 67-69): [diffs.append(...)]. *)
Definition check_step {E} (np_mean : list E -> float) (process : ndarray E)
    (tol : float) (t : Z) (diffs : list bool) : result (list bool) :=
  let! c := column (rows_of process) t in
  let mean_prev := np_mean c in
  let! c' := column (rows_of process) (t + 1) in
  let mean_next := np_mean c' in
  Ok (diffs ++ [PrimFloat.ltb (PrimFloat.abs (PrimFloat.sub mean_next mean_prev)) tol]).

Definition check_martingale_property_by_time {E} (np_mean : list E -> float)
    (process : ndarray E) (tol : float) : result (list bool) :=
  let n_steps := shape1 process in
  for_each (py_range (n_steps - 1)) (check_step np_mean process tol) [].

(** ** [build_partial_sums] *)

(** [np.cumsum] along a row, from the running sum [acc]. *)
Fixpoint cumsum_from (acc : Z) (r : row) : row :=
  match r with
  | [] => []
  | x :: r' => let s := int_add acc x in s :: cumsum_from s r'
  end.

Definition cumsum (r : row) : row :=
  match r with
  | [] => []
  | x :: r' => x :: cumsum_from x r'
  end.

Definition build_partial_sums (coin_tosses : ndarray Z) : ndarray Z :=
  NdArray (shape0 coin_tosses) (shape1 coin_tosses) (cumsum <$> rows_of coin_tosses).

(** ** The estimators *)

(** [r[:stop]] *)
Definition slice_to {A} (r : list A) (stop : Z) : list A :=
  if stop <? 0 then take (Z.to_nat (Z.of_nat (length r) + stop)) r
  else take (Z.to_nat stop) r.

(** [groups.setdefault(k, []).append(v)] *)
Definition setdefault_append `{Countable K} (groups : gmap K (list Z)) (k : K) (v : Z)
  : gmap K (list Z) :=
  <[k := default [] (groups !! k) ++ [v]]> groups.

(** The body of the grouping loop of [estimate_conditional_expectation]
    (lines 52-54). *)
Definition group_history (t : Z) (path : row) (groups : gmap (list Z) (list Z))
  : result (gmap (list Z) (list Z)) :=
  let history := slice_to path (t + 1) in
  let! nxt := getitem path (t + 1) in
  Ok (setdefault_append groups history nxt).

(** The groups the loop of lines 50-54 builds. *)
Definition history_groups (coin_tosses : ndarray Z) (t : Z)
  : result (gmap (list Z) (list Z)) :=
  for_each (rows_of coin_tosses) (group_history t) ∅.

Definition estimate_conditional_expectation {F} (np_mean : list Z -> F)
    (coin_tosses : ndarray Z) (t : Z) : result (gmap (list Z) F) :=
  let n_steps := shape1 coin_tosses in
  if negb ((0 <=? t) && (t <? n_steps - 1)) then Raise ValueError
  else
    let! groups := history_groups coin_tosses t in
    Ok (np_mean <$> groups).

(** The body of the grouping loop of [estimate_conditional_expectation_sums]
    (lines 75-77). *)
Definition group_sum (t : Z) (S : row) (groups : gmap Z (list Z))
  : result (gmap Z (list Z)) :=
  let! st := getitem S t in
  let! snext := getitem S (t + 1) in
  Ok (setdefault_append groups st snext).

(** The groups the loop of lines 73-77 builds. *)
Definition sum_groups (partial_sums : ndarray Z) (t : Z) : result (gmap Z (list Z)) :=
  for_each (rows_of partial_sums) (group_sum t) ∅.

Definition estimate_conditional_expectation_sums {F} (np_mean : list Z -> F)
    (partial_sums : ndarray Z) (t : Z) : result (gmap Z F) :=
  let n_steps := shape1 partial_sums in
  if negb ((0 <=? t) && (t <? n_steps - 1)) then Raise ValueError
  else
    let! groups := sum_groups partial_sums t in
    Ok (np_mean <$> groups).

(** [np.mean] of a list of integers: the sum accumulated in binary64, divided
    by the count. The accumulation is sequential; NumPy's pairwise order gives
    the same value whenever every partial sum is an integer below [2^53].
    [float_of_int] is the conversion of an integer, rounded to nearest. *)
Definition float_of_int (z : Z) : float :=
  SF2Prim (binary_normalize prec emax z 0 false).

Definition np_mean_f64 (v : list Z) : float :=
  PrimFloat.div
    (fold_left (fun acc x => PrimFloat.add acc (float_of_int x)) v PrimFloat.zero)
    (float_of_int (Z.of_nat (length v))).

(** ** Closed forms of one path of the simulation

    For a row [x] of tosses: whether steps [0..k-1] were all losses, the flag
    [betting] on entering step [t], the stake [B[i, t]] and the winnings
    [W[i, t]]. The loop is proved to compute them ([simulate_path_ok]). *)

Definition all_losses (x : row) (k : nat) : bool :=
  forallb (Z.eqb (-1)) (take k x).

Definition betting_at (x : row) (t : nat) : bool := all_losses x (t - 1).

Definition stake_at (x : row) (t : nat) : Z :=
  if all_losses x t then wrap (2 ^ Z.of_nat t) else 0.

Fixpoint winnings_at (x : row) (t : nat) : Z :=
  match t with
  | O => int_mul (stake_at x 0) (x !!! 0%nat)
  | S t' =>
      if betting_at x t
      then int_add (winnings_at x t') (int_mul (stake_at x t) (x !!! t))
      else winnings_at x t'
  end.

Definition stakes_row (x : row) : row := stake_at x <$> seq 0 (length x).
Definition winnings_row (x : row) : row := winnings_at x <$> seq 0 (length x).

(** ** Closed forms of the grouping loops

    The key and the next value of a path, the groups as a fold over the
    paths, the paths that share a key and the number of values in all
    groups. The loops are proved to compute [group_by]
    ([history_groups_ok], [sum_groups_ok]). *)

Definition history_key (t : Z) (path : row) : list Z := slice_to path (t + 1).
Definition next_value (t : Z) (path : row) : Z := path !!! Z.to_nat (t + 1).
Definition sum_key (t : Z) (S : row) : Z := S !!! Z.to_nat t.

Definition group_by `{Countable K} (key : row -> K) (val : row -> Z)
    (rows : list row) (groups : gmap K (list Z)) : gmap K (list Z) :=
  fold_left (fun g p => setdefault_append g (key p) (val p)) rows groups.

Definition group_members `{EqDecision K} (key : row -> K) (k : K) (rows : list row)
  : list row :=
  filter (fun p => key p = k) rows.

Definition group_total `{Countable K} (groups : gmap K (list Z)) : nat :=
  sum_list_with (fun kv : K * list Z => length kv.2) (map_to_list groups).

(** All the toss histories of [n] steps. *)
Fixpoint toss_lists (n : nat) : list (list Z) :=
  match n with
  | O => [[]]
  | S n' => (cons (-1) <$> toss_lists n') ++ (cons 1 <$> toss_lists n')
  end.

(** The sums [n] tosses can reach: [n - 2 * j] for [j] losses. *)
Definition reachable_sums (n : nat) : list Z :=
  (fun j => Z.of_nat n - 2 * Z.of_nat j) <$> seq 0 (S n).

(** [sum(l)] over the integers, without reduction. *)
Definition sumZ (l : list Z) : Z := foldr Z.add 0 l.

(** ** Sample inputs *)

(** One path that loses 64 times in a row. *)
Definition losing_streak : matrix := [replicate 64 (-1)].

(** One path that loses 66 times in a row. *)
Definition long_losing_streak : matrix := [replicate 66 (-1)].

(** Two paths with the same tosses and a third one. *)
Definition twin_paths : matrix := [[-1; 1; -1; 1]; [1; 1; 1; 1]; [-1; 1; -1; 1]].

(** One path that loses, then wins. *)
Definition lose_then_win : matrix := [[-1; 1; -1; 1]].

(** An array of shape [(3, 0)]: three paths, no step. *)
Definition no_steps : ndarray Z := NdArray 3 0 [[]; []; []].

(** An array of shape [(0, 5)]: five steps, no path. *)
Definition no_paths : ndarray Z := NdArray 0 5 [].

(** The default tolerance [1e-6] of the checker: the nearest binary64. *)
Definition default_tol : float := 0x1.0c6f7a0b5ed8dp-20%float.

(** The three paths of the estimator scenario. *)
Definition three_paths : ndarray Z :=
  NdArray 3 3 [[1; 1; -1]; [1; 1; 1]; [1; -1; 1]].

(** * Lemmas *)

(** ** The error monad and loops *)

Lemma bind_Ok {A B} (m : result A) (f : A -> result B) (a : A) :
  m = Ok a -> bind m f = f a.
Proof. intros ->. reflexivity. Qed.

Lemma bind_Ok_inv {A B} (m : result A) (f : A -> result B) (b : B) :
  bind m f = Ok b -> exists a, m = Ok a /\ f a = Ok b.
Proof. destruct m as [a|e]; simpl; [eauto | discriminate]. Qed.

Lemma for_each_app {A S} (l1 l2 : list A) (body : A -> S -> result S) (s : S) :
  for_each (l1 ++ l2) body s = bind (for_each l1 body s) (for_each l2 body).
Proof.
  revert s. induction l1 as [|a l1 IH]; intros s; simpl; [reflexivity|].
  destruct (body a s) as [s'|e]; simpl; [apply IH | reflexivity].
Qed.

Lemma for_each_snoc {A S} (l : list A) (a : A) (body : A -> S -> result S) (s s' : S) :
  for_each l body s = Ok s' ->
  for_each (l ++ [a]) body s = body a s'.
Proof.
  intros H. rewrite for_each_app, H. simpl. destruct (body a s'); reflexivity.
Qed.

Lemma py_range_0 : py_range 0 = [].
Proof. reflexivity. Qed.

Lemma py_range_neg (n : Z) : n <= 0 -> py_range n = [].
Proof. intros H. unfold py_range. replace (Z.to_nat n) with 0%nat by lia. reflexivity. Qed.

Lemma py_range_of_nat (n : nat) : py_range (Z.of_nat n) = Z.of_nat <$> seq 0 n.
Proof. unfold py_range. by rewrite Nat2Z.id. Qed.

Lemma py_range_S (n : nat) :
  py_range (Z.of_nat (S n)) = py_range (Z.of_nat n) ++ [Z.of_nat n].
Proof. rewrite !py_range_of_nat, seq_S, fmap_app. reflexivity. Qed.

Lemma length_py_range (n : Z) : length (py_range n) = Z.to_nat n.
Proof. unfold py_range. by rewrite length_fmap, length_seq. Qed.

(** ** Two's complement arithmetic *)

Lemma int_modulus_pos : 0 < 2 ^ int_bits.
Proof. reflexivity. Qed.

Lemma int_modulus_half : 2 ^ int_bits = 2 * 2 ^ (int_bits - 1).
Proof. reflexivity. Qed.

Lemma wrap_in_range (z : Z) : in_range (wrap z).
Proof.
  unfold in_range, wrap, int_min, int_max.
  pose proof (Z.mod_pos_bound (z + 2 ^ (int_bits - 1)) _ int_modulus_pos).
  pose proof int_modulus_half. lia.
Qed.

Lemma wrap_id (z : Z) : in_range z -> wrap z = z.
Proof.
  unfold in_range, wrap, int_min, int_max. intros H.
  pose proof int_modulus_half.
  rewrite Z.mod_small by lia. lia.
Qed.

Lemma wrap_mod (z : Z) : wrap z mod 2 ^ int_bits = z mod 2 ^ int_bits.
Proof.
  unfold wrap.
  rewrite <- Zminus_mod_idemp_l, Z.mod_mod by (pose proof int_modulus_pos; lia).
  rewrite Zminus_mod_idemp_l. f_equal. lia.
Qed.

Lemma wrap_congr (a b : Z) :
  a mod 2 ^ int_bits = b mod 2 ^ int_bits -> wrap a = wrap b.
Proof.
  intros H. unfold wrap. f_equal.
  rewrite <- (Zplus_mod_idemp_l a), <- (Zplus_mod_idemp_l b), H. reflexivity.
Qed.

Lemma wrap_add_l (a b : Z) : wrap (wrap a + b) = wrap (a + b).
Proof.
  apply wrap_congr. rewrite <- Zplus_mod_idemp_l, wrap_mod, Zplus_mod_idemp_l. reflexivity.
Qed.

Lemma wrap_add_r (a b : Z) : wrap (a + wrap b) = wrap (a + b).
Proof. rewrite (Z.add_comm a), wrap_add_l. f_equal. lia. Qed.

Lemma wrap_mul_l (a b : Z) : wrap (wrap a * b) = wrap (a * b).
Proof.
  apply wrap_congr. rewrite <- Zmult_mod_idemp_l, wrap_mod, Zmult_mod_idemp_l. reflexivity.
Qed.

Lemma wrap_mul_r (a b : Z) : wrap (a * wrap b) = wrap (a * b).
Proof. rewrite (Z.mul_comm a), wrap_mul_l. f_equal. lia. Qed.

Lemma wrap_wrap (z : Z) : wrap (wrap z) = wrap z.
Proof. apply wrap_id, wrap_in_range. Qed.

Lemma pow2_in_range (t : nat) : (t <= 62)%nat -> in_range (2 ^ Z.of_nat t).
Proof.
  intros H. unfold in_range, int_min, int_max.
  assert (0 < 2 ^ Z.of_nat t) by (apply Z.pow_pos_nonneg; lia).
  assert (2 ^ Z.of_nat t <= 2 ^ 62) by (apply Z.pow_le_mono_r; lia).
  change (2 ^ (int_bits - 1)) with (2 * 2 ^ 62). lia.
Qed.

(** ** Indexing *)

Lemma norm_index_nat (len k : nat) :
  (k < len)%nat -> norm_index len (Z.of_nat k) = Ok k.
Proof.
  intros H. unfold norm_index.
  destruct (Z.leb_spec 0 (Z.of_nat k)); [|lia].
  destruct (Z.ltb_spec (Z.of_nat k) (Z.of_nat len)); [|lia].
  simpl. by rewrite Nat2Z.id.
Qed.

Lemma norm_index_Ok (len : nat) (k : Z) (j : nat) :
  0 <= k -> norm_index len k = Ok j -> j = Z.to_nat k /\ (j < len)%nat.
Proof.
  intros Hk. unfold norm_index.
  destruct (Z.leb_spec 0 k); [|lia].
  destruct (Z.ltb_spec k (Z.of_nat len)); simpl.
  - intros [= <-]. lia.
  - destruct (Z.ltb_spec k 0); [lia|]. rewrite andb_false_r. discriminate.
Qed.

Lemma getitem_nat {A} (r : list A) (k : nat) (a : A) :
  r !! k = Some a -> getitem r (Z.of_nat k) = Ok a.
Proof.
  intros H. unfold getitem.
  rewrite norm_index_nat by (by eapply lookup_lt_Some).
  simpl. unfold lookup_or_raise. by rewrite H.
Qed.

Lemma getitem_Ok {A} (r : list A) (k : Z) (a : A) :
  0 <= k -> getitem r k = Ok a -> r !! Z.to_nat k = Some a.
Proof.
  intros Hk H. unfold getitem in H.
  apply bind_Ok_inv in H as (j & Hj & H).
  apply norm_index_Ok in Hj as [-> _]; [|done].
  unfold lookup_or_raise in H. destruct (r !! Z.to_nat k); congruence.
Qed.

Lemma getitem2_nat {A} (M : list (list A)) (i j : nat) (r : list A) (a : A) :
  M !! i = Some r -> r !! j = Some a ->
  getitem2 M (Z.of_nat i) (Z.of_nat j) = Ok a.
Proof.
  intros Hi Hj. unfold getitem2.
  rewrite (getitem_nat _ _ _ Hi). simpl. by apply getitem_nat.
Qed.

Lemma setitem2_nat {A} (M : list (list A)) (i j : nat) (r : list A) (v : A) :
  M !! i = Some r -> (j < length r)%nat ->
  setitem2 M (Z.of_nat i) (Z.of_nat j) v = Ok (<[i := <[j := v]> r]> M).
Proof.
  intros Hi Hj. unfold setitem2.
  rewrite norm_index_nat by (by eapply lookup_lt_Some). simpl.
  unfold lookup_or_raise. rewrite Hi. simpl.
  by rewrite norm_index_nat.
Qed.

(** ** The closed forms *)

Lemma all_losses_spec (x : row) (k : nat) :
  all_losses x k = true <->
  (forall j v, (j < k)%nat -> x !! j = Some v -> v = -1).
Proof.
  unfold all_losses. rewrite forallb_forall. split.
  - intros H j v Hj Hv.
    symmetry. apply Z.eqb_eq, H, list_elem_of_In, list_elem_of_lookup.
    exists j. rewrite lookup_take_lt by done. done.
  - intros H v Hv. apply list_elem_of_In, list_elem_of_lookup in Hv as [j Hj].
    apply Z.eqb_eq. symmetry.
    destruct (decide (j < k)%nat) as [Hlt|Hge].
    + rewrite lookup_take_lt in Hj by done. eauto.
    + rewrite lookup_take_ge in Hj by lia. done.
Qed.

Lemma all_losses_0 (x : row) : all_losses x 0 = true.
Proof. reflexivity. Qed.

Lemma all_losses_S (x : row) (k : nat) (v : Z) :
  x !! k = Some v ->
  all_losses x (S k) = all_losses x k && (v =? -1).
Proof.
  intros H. unfold all_losses.
  rewrite (take_S_r _ _ _ H), forallb_app. cbn [forallb].
  rewrite andb_true_r. f_equal. apply Z.eqb_sym.
Qed.

Lemma all_losses_mono (x : row) (k k' : nat) :
  (k <= k')%nat -> all_losses x k' = true -> all_losses x k = true.
Proof.
  rewrite !all_losses_spec. intros Hle H j v Hj. apply H. lia.
Qed.

Lemma all_losses_false_mono (x : row) (k k' : nat) :
  (k <= k')%nat -> all_losses x k = false -> all_losses x k' = false.
Proof.
  intros Hle H. destruct (all_losses x k') eqn:E; [|done].
  by rewrite (all_losses_mono _ _ _ Hle E) in H.
Qed.

Lemma betting_at_0 (x : row) : betting_at x 0 = true.
Proof. reflexivity. Qed.

Lemma betting_at_1 (x : row) : betting_at x 1 = true.
Proof. reflexivity. Qed.

Lemma betting_at_S (x : row) (t : nat) : betting_at x (S t) = all_losses x t.
Proof. unfold betting_at. f_equal. lia. Qed.

Lemma stake_at_0 (x : row) : stake_at x 0 = 1.
Proof. reflexivity. Qed.

Lemma stake_at_S (x : row) (t : nat) (v : Z) :
  x !! t = Some v ->
  stake_at x (S t) =
    if all_losses x t && (v =? -1) then wrap (2 ^ Z.of_nat (S t)) else 0.
Proof. intros H. unfold stake_at. by rewrite (all_losses_S _ _ _ H). Qed.

Lemma stake_in_range (x : row) (t : nat) : in_range (stake_at x t).
Proof.
  unfold stake_at. destruct (all_losses x t); [apply wrap_in_range|].
  unfold in_range, int_min, int_max.
  change (2 ^ (int_bits - 1)) with 9223372036854775808. lia.
Qed.

Lemma winnings_in_range (x : row) (t : nat) : in_range (winnings_at x t).
Proof.
  induction t as [|t IH]; simpl.
  - apply wrap_in_range.
  - destruct (betting_at x (S t)); [apply wrap_in_range | done].
Qed.

(** ** The inner loop computes the closed forms *)

Lemma lookup_total_Some (x : row) (k : nat) (v : Z) :
  x !! k = Some v -> x !!! k = v.
Proof. apply list_lookup_total_correct. Qed.

Lemma step_ok (X Bm Wm : matrix) (i t : nat) (x rb rw : row) :
  X !! i = Some x -> Bm !! i = Some rb -> Wm !! i = Some rw ->
  length rb = length x -> length rw = length x ->
  (t < length x)%nat ->
  (forall k, S k = t -> rb !! k = Some (stake_at x k)) ->
  (forall k, S k = t -> rw !! k = Some (winnings_at x k)) ->
  step X (Z.of_nat i) (Z.of_nat t) (SimState (betting_at x t) Bm Wm)
  = Ok (SimState (betting_at x (S t))
          (<[i := <[t := stake_at x t]> rb]> Bm)
          (<[i := <[t := winnings_at x t]> rw]> Wm)).
Proof.
  intros HX HB HW Lb Lw Ht Pb Pw.
  destruct (lookup_lt_is_Some_2 x t Ht) as [xt Hxt].
  assert (HiB : (i < length Bm)%nat) by (by eapply lookup_lt_Some).
  assert (Hread : forall v,
    getitem2 (<[i := <[t := v]> rb]> Bm) (Z.of_nat i) (Z.of_nat t) = Ok v).
  { intros v. eapply getitem2_nat.
    - by apply list_lookup_insert_eq.
    - apply list_lookup_insert_eq. lia. }
  unfold step. cbn [betting B W]. destruct t as [|t].
  - (* step 0: the stake is 1 *)
    rewrite betting_at_0, betting_at_1. cbn [negb].
    destruct (Z.eqb_spec (Z.of_nat 0) 0) as [_|]; [|lia].
    destruct (Z.ltb_spec 0 (Z.of_nat 0)) as [|_]; [lia|].
    rewrite (setitem2_nat _ _ 0 _ _ HB) by lia. cbn [bind fst snd].
    rewrite (Hread 1), (getitem2_nat _ _ _ _ _ HX Hxt). cbn [bind].
    rewrite (setitem2_nat _ _ 0 _ _ HW) by lia. cbn [bind].
    cbn [winnings_at]. rewrite stake_at_0, (lookup_total_Some _ _ _ Hxt). reflexivity.
  - replace (Z.of_nat (S t) - 1) with (Z.of_nat t) by lia.
    destruct (Z.eqb_spec (Z.of_nat (S t)) 0) as [|_]; [lia|].
    destruct (Z.ltb_spec 0 (Z.of_nat (S t))) as [_|]; [|lia].
    assert (Ht' : (t < length x)%nat) by lia.
    destruct (lookup_lt_is_Some_2 x t Ht') as [xp Hxp].
    specialize (Pb t eq_refl). specialize (Pw t eq_refl).
    rewrite (betting_at_S x (S t)).
    rewrite (all_losses_S _ _ _ Hxp), <- betting_at_S.
    cbn [winnings_at]. rewrite (lookup_total_Some _ _ _ Hxt).
    rewrite (stake_at_S _ _ _ Hxp).
    destruct (betting_at x (S t)) eqn:Ebet; cbn [negb andb].
    + (* still betting *)
      rewrite (getitem2_nat _ _ _ _ _ HX Hxp). cbn [bind].
      rewrite betting_at_S in Ebet. rewrite Ebet. cbn [andb].
      destruct (xp =? -1) eqn:Exp.
      * rewrite (getitem2_nat _ _ _ _ _ HB Pb). cbn [bind].
        rewrite (setitem2_nat _ _ (S t) _ _ HB) by lia. cbn [bind fst snd].
        rewrite Hread, (getitem2_nat _ _ _ _ _ HX Hxt). cbn [bind].
        rewrite (getitem2_nat _ _ _ _ _ HW Pw). cbn [bind].
        rewrite (setitem2_nat _ _ (S t) _ _ HW) by lia. cbn [bind].
        unfold stake_at. rewrite Ebet. unfold int_mul at 1 3.
        rewrite wrap_mul_r.
        replace (2 * 2 ^ Z.of_nat t) with (2 ^ Z.of_nat (S t))
          by (rewrite Nat2Z.inj_succ, Z.pow_succ_r by lia; reflexivity).
        reflexivity.
      * rewrite (setitem2_nat _ _ (S t) _ _ HB) by lia. cbn [bind fst snd].
        rewrite Hread, (getitem2_nat _ _ _ _ _ HX Hxt). cbn [bind].
        rewrite (getitem2_nat _ _ _ _ _ HW Pw). cbn [bind].
        rewrite (setitem2_nat _ _ (S t) _ _ HW) by lia. cbn [bind].
        reflexivity.
    + (* stopped *)
      rewrite betting_at_S in Ebet.
      rewrite (setitem2_nat _ _ (S t) _ _ HB) by lia. cbn [bind].
      rewrite (getitem2_nat _ _ _ _ _ HW Pw). cbn [bind].
      rewrite (setitem2_nat _ _ (S t) _ _ HW) by lia. cbn [bind].
      rewrite Ebet. reflexivity.
Qed.

Lemma path_loop_ok (X B0 W0 : matrix) (i : nat) (x rb0 rw0 : row) (t : nat) :
  X !! i = Some x -> B0 !! i = Some rb0 -> W0 !! i = Some rw0 ->
  length rb0 = length x -> length rw0 = length x ->
  (t <= length x)%nat ->
  exists rb rw,
    for_each (py_range (Z.of_nat t)) (step X (Z.of_nat i)) (SimState true B0 W0)
    = Ok (SimState (betting_at x t) (<[i := rb]> B0) (<[i := rw]> W0))
    /\ length rb = length x /\ length rw = length x
    /\ (forall k, (k < t)%nat -> rb !! k = Some (stake_at x k))
    /\ (forall k, (k < t)%nat -> rw !! k = Some (winnings_at x k)).
Proof.
  intros HX HB HW Lb Lw.
  assert (HiB : (i < length B0)%nat) by (by eapply lookup_lt_Some).
  assert (HiW : (i < length W0)%nat) by (by eapply lookup_lt_Some).
  induction t as [|t IH]; intros Ht.
  - exists rb0, rw0. rewrite !list_insert_id by done.
    repeat split; try done; intros k Hk; lia.
  - destruct IH as (rb & rw & Hrun & Lrb & Lrw & Pb & Pw); [lia|].
    exists (<[t := stake_at x t]> rb), (<[t := winnings_at x t]> rw).
    rewrite py_range_S, (for_each_snoc _ _ _ _ _ Hrun).
    rewrite (step_ok X _ _ i t x rb rw); try done.
    + rewrite !list_insert_insert_eq, !length_insert.
      repeat split; try done; intros k Hk.
      * destruct (decide (k = t)) as [->|Hne].
        -- apply list_lookup_insert_eq. lia.
        -- rewrite list_lookup_insert_ne by done. apply Pb. lia.
      * destruct (decide (k = t)) as [->|Hne].
        -- apply list_lookup_insert_eq. lia.
        -- rewrite list_lookup_insert_ne by done. apply Pw. lia.
    + by apply list_lookup_insert_eq.
    + by apply list_lookup_insert_eq.
    + intros k <-. apply Pb. lia.
    + intros k <-. apply Pw. lia.
Qed.

Lemma stakes_row_lookup (x : row) (t : nat) :
  (t < length x)%nat -> stakes_row x !! t = Some (stake_at x t).
Proof.
  intros H. unfold stakes_row. by rewrite list_lookup_fmap, lookup_seq_lt.
Qed.

Lemma winnings_row_lookup (x : row) (t : nat) :
  (t < length x)%nat -> winnings_row x !! t = Some (winnings_at x t).
Proof.
  intros H. unfold winnings_row. by rewrite list_lookup_fmap, lookup_seq_lt.
Qed.

Lemma row_eq_closed_form (f : nat -> Z) (r : row) (n : nat) :
  length r = n ->
  (forall k, (k < n)%nat -> r !! k = Some (f k)) ->
  r = f <$> seq 0 n.
Proof.
  intros L P. apply list_eq. intros k.
  destruct (decide (k < n)%nat) as [Hlt|Hge].
  - by rewrite P, list_lookup_fmap, lookup_seq_lt.
  - rewrite !lookup_ge_None_2; [done | rewrite length_fmap, length_seq; lia | lia].
Qed.

Lemma simulate_path_ok (X B0 W0 : matrix) (i : nat) (x rb0 rw0 : row) :
  X !! i = Some x -> B0 !! i = Some rb0 -> W0 !! i = Some rw0 ->
  length rb0 = length x -> length rw0 = length x ->
  simulate_path X (Z.of_nat (length x)) (Z.of_nat i) (B0, W0)
  = Ok (<[i := stakes_row x]> B0, <[i := winnings_row x]> W0).
Proof.
  intros HX HB HW Lb Lw.
  destruct (path_loop_ok X B0 W0 i x rb0 rw0 (length x) HX HB HW Lb Lw)
    as (rb & rw & Hrun & Lrb & Lrw & Pb & Pw); [lia|].
  unfold simulate_path. cbn [fst snd]. rewrite Hrun. cbn [bind B W].
  rewrite (row_eq_closed_form (stake_at x) rb (length x) Lrb Pb).
  rewrite (row_eq_closed_form (winnings_at x) rw (length x) Lrw Pw).
  reflexivity.
Qed.

(** ** The outer loop *)

Lemma zeros_like_lookup (X : matrix) (i : nat) (x : row) :
  X !! i = Some x -> zeros_like X !! i = Some ((fun _ => 0) <$> x).
Proof. intros H. unfold zeros_like. by rewrite list_lookup_fmap, H. Qed.

Lemma has_shape_row {A} (X : list (list A)) (n_paths n_steps : Z) (i : nat) (x : list A) :
  has_shape X n_paths n_steps -> X !! i = Some x -> Z.of_nat (length x) = n_steps.
Proof.
  intros (_ & _ & H) Hi. rewrite Forall_lookup in H. by apply (H i).
Qed.

Lemma paths_loop_ok (X : matrix) (n_paths n_steps : Z) (m : nat) :
  has_shape X n_paths n_steps -> (m <= length X)%nat ->
  for_each (py_range (Z.of_nat m)) (simulate_path X n_steps) (zeros_like X, zeros_like X)
  = Ok ((stakes_row <$> take m X) ++ drop m (zeros_like X),
        (winnings_row <$> take m X) ++ drop m (zeros_like X)).
Proof.
  intros HS. induction m as [|m IH]; intros Hm.
  - change (py_range (Z.of_nat 0)) with (@nil Z). simpl. by rewrite !drop_0.
  - rewrite py_range_S, (for_each_snoc _ _ _ _ _ (IH ltac:(lia))).
    destruct (lookup_lt_is_Some_2 X m) as [x Hx]; [lia|].
    pose proof (zeros_like_lookup _ _ _ Hx) as Hz.
    assert (Lt : length (take m X) = m) by (rewrite length_take; lia).
    rewrite <- (has_shape_row _ _ _ _ _ HS Hx).
    rewrite (simulate_path_ok X _ _ m x ((fun _ => 0) <$> x) ((fun _ => 0) <$> x));
      try done; try (by rewrite length_fmap);
      try (rewrite lookup_app_r by (rewrite length_fmap; lia);
           rewrite length_fmap, Lt, lookup_drop, Nat.sub_diag, Nat.add_0_r; done).
    rewrite !insert_app_r_alt by (rewrite length_fmap; lia).
    rewrite !length_fmap, Lt, Nat.sub_diag.
    rewrite (drop_S _ _ _ Hz). cbn [insert list_insert].
    rewrite (take_S_r _ _ _ Hx), !fmap_app, <- !app_assoc. reflexivity.
Qed.

Theorem simulate_ok (n_paths n_steps : Z) (X : matrix) :
  has_shape X n_paths n_steps ->
  simulate_martingale_betting_strategy n_paths n_steps X
  = Ok (X, stakes_row <$> X, winnings_row <$> X).
Proof.
  intros HS. unfold simulate_martingale_betting_strategy.
  destruct HS as (HP & HN & HR). rewrite <- HP.
  rewrite (paths_loop_ok X n_paths n_steps (length X)); [|done|lia].
  cbn [bind fst snd].
  rewrite firstn_all, !drop_ge by (unfold zeros_like; rewrite length_fmap; lia).
  rewrite !app_nil_r. reflexivity.
Qed.

(** The variables on entering step [t] of path [i]. *)
Lemma state_entering_ok (X : matrix) (n_paths n_steps : Z) (i t : nat) (x : row) :
  has_shape X n_paths n_steps -> X !! i = Some x -> (t <= length x)%nat ->
  exists s rb rw,
    state_entering X n_steps (Z.of_nat i) (Z.of_nat t) = Ok s
    /\ betting s = betting_at x t
    /\ B s !! i = Some rb /\ W s !! i = Some rw
    /\ length rb = length x /\ length rw = length x
    /\ (forall k, (k < t)%nat -> rb !! k = Some (stake_at x k))
    /\ (forall k, (k < t)%nat -> rw !! k = Some (winnings_at x k)).
Proof.
  intros HS Hx Ht.
  assert (Hi : (i < length X)%nat) by (by eapply lookup_lt_Some).
  pose proof (zeros_like_lookup _ _ _ Hx) as Hz.
  assert (Lt : length (take i X) = i) by (rewrite length_take; lia).
  unfold state_entering.
  rewrite (paths_loop_ok X n_paths n_steps i HS) by lia. cbn [bind fst snd].
  set (B0 := (stakes_row <$> take i X) ++ drop i (zeros_like X)).
  set (W0 := (winnings_row <$> take i X) ++ drop i (zeros_like X)).
  assert (HB0 : B0 !! i = Some ((fun _ => 0) <$> x)).
  { unfold B0. rewrite lookup_app_r by (rewrite length_fmap; lia).
    by rewrite length_fmap, Lt, lookup_drop, Nat.sub_diag, Nat.add_0_r. }
  assert (HW0 : W0 !! i = Some ((fun _ => 0) <$> x)).
  { unfold W0. rewrite lookup_app_r by (rewrite length_fmap; lia).
    by rewrite length_fmap, Lt, lookup_drop, Nat.sub_diag, Nat.add_0_r. }
  destruct (path_loop_ok X B0 W0 i x _ _ t Hx HB0 HW0)
    as (rb & rw & Hrun & Lrb & Lrw & Pb & Pw);
    [by rewrite length_fmap | by rewrite length_fmap | done |].
  exists (SimState (betting_at x t) (<[i := rb]> B0) (<[i := rw]> W0)), rb, rw.
  cbn [betting B W]. repeat split; try done.
  - apply list_lookup_insert_eq. by eapply lookup_lt_Some.
  - apply list_lookup_insert_eq. by eapply lookup_lt_Some.
Qed.

(** ** Reading the result of the simulation *)

Lemma shape_row {A} (X : list (list A)) (n_paths n_steps i : Z) :
  has_shape X n_paths n_steps -> 0 <= i < n_paths ->
  exists x, X !! Z.to_nat i = Some x /\ Z.of_nat (length x) = n_steps.
Proof.
  intros HS Hi. pose proof HS as (HP & _ & _).
  destruct (lookup_lt_is_Some_2 X (Z.to_nat i)) as [x Hx]; [lia|].
  exists x. split; [done|]. by eapply has_shape_row.
Qed.

Lemma cell_tosses {A} `{Inhabited A} (X : list (list A)) (i t : Z) (x : list A) :
  X !! Z.to_nat i = Some x -> 0 <= i -> 0 <= t < Z.of_nat (length x) ->
  x !! Z.to_nat t = Some (x !!! Z.to_nat t) /\
  getitem2 X i t = Ok (x !!! Z.to_nat t).
Proof.
  intros Hx Hi Ht.
  assert (Hl : x !! Z.to_nat t = Some (x !!! Z.to_nat t))
    by (apply list_lookup_lookup_total_lt; lia).
  split; [done|].
  rewrite <- (Z2Nat.id i), <- (Z2Nat.id t) by lia.
  rewrite !Nat2Z.id. by eapply getitem2_nat.
Qed.

Lemma cell_stakes (X : matrix) (i t : Z) (x : row) :
  X !! Z.to_nat i = Some x -> 0 <= i -> 0 <= t < Z.of_nat (length x) ->
  getitem2 (stakes_row <$> X) i t = Ok (stake_at x (Z.to_nat t)).
Proof.
  intros Hx Hi Ht.
  rewrite <- (Z2Nat.id i), <- (Z2Nat.id t) by lia. rewrite !Nat2Z.id.
  eapply getitem2_nat.
  - by rewrite list_lookup_fmap, Hx.
  - apply stakes_row_lookup. lia.
Qed.

Lemma cell_winnings (X : matrix) (i t : Z) (x : row) :
  X !! Z.to_nat i = Some x -> 0 <= i -> 0 <= t < Z.of_nat (length x) ->
  getitem2 (winnings_row <$> X) i t = Ok (winnings_at x (Z.to_nat t)).
Proof.
  intros Hx Hi Ht.
  rewrite <- (Z2Nat.id i), <- (Z2Nat.id t) by lia. rewrite !Nat2Z.id.
  eapply getitem2_nat.
  - by rewrite list_lookup_fmap, Hx.
  - apply winnings_row_lookup. lia.
Qed.

Lemma getitem2_Ok {A} (M : list (list A)) (i j : Z) (a : A) :
  0 <= i -> 0 <= j -> getitem2 M i j = Ok a ->
  exists r, M !! Z.to_nat i = Some r /\ r !! Z.to_nat j = Some a.
Proof.
  intros Hi Hj H. unfold getitem2 in H.
  apply bind_Ok_inv in H as (r & Hr & H).
  exists r. split; by apply getitem_Ok.
Qed.

(** ** Properties of the closed forms *)

Ltac range_numbers :=
  unfold in_range, int_min, int_max in *;
  change (2 ^ (int_bits - 1)) with 9223372036854775808 in *.

Lemma pow2_le_62 (t : nat) : (t <= 62)%nat -> 0 < 2 ^ Z.of_nat t <= 4611686018427387904.
Proof.
  intros H. split; [apply Z.pow_pos_nonneg; lia|].
  change 4611686018427387904 with (2 ^ 62). apply Z.pow_le_mono_r; lia.
Qed.

Lemma pow2_succ (t : nat) : 2 ^ Z.of_nat (S t) = 2 * 2 ^ Z.of_nat t.
Proof. rewrite Nat2Z.inj_succ, Z.pow_succ_r by lia. reflexivity. Qed.

Lemma wrap_pow2_small (t : nat) : (t <= 62)%nat -> wrap (2 ^ Z.of_nat t) = 2 ^ Z.of_nat t.
Proof. intros H. apply wrap_id, pow2_in_range, H. Qed.

Lemma stake_cases (x : row) (t : nat) :
  stake_at x t = 0 \/ stake_at x t = wrap (2 ^ Z.of_nat t).
Proof. unfold stake_at. destruct (all_losses x t); auto. Qed.

Lemma stake_small (x : row) (t : nat) :
  (t <= 62)%nat ->
  stake_at x t = if all_losses x t then 2 ^ Z.of_nat t else 0.
Proof. intros H. unfold stake_at. by rewrite wrap_pow2_small. Qed.

Lemma all_losses_after_win (x : row) (k t : nat) (v : Z) :
  x !! k = Some v -> v <> -1 -> (k < t)%nat -> all_losses x t = false.
Proof.
  intros Hk Hv Hlt. destruct (all_losses x t) eqn:E; [|done].
  rewrite all_losses_spec in E. by specialize (E k v Hlt Hk).
Qed.

Lemma stake_after_win (x : row) (k t : nat) (v : Z) :
  x !! k = Some v -> v <> -1 -> (k < t)%nat -> stake_at x t = 0.
Proof.
  intros Hk Hv Hlt. unfold stake_at.
  by rewrite (all_losses_after_win _ _ _ _ Hk Hv Hlt).
Qed.

Lemma winnings_zero_stake (x : row) (t : nat) :
  stake_at x (S t) = 0 -> winnings_at x (S t) = winnings_at x t.
Proof.
  intros H. cbn [winnings_at]. destruct (betting_at x (S t)); [|done].
  rewrite H. unfold int_add, int_mul. rewrite Z.mul_0_l, wrap_add_r, Z.add_0_r.
  apply wrap_id, winnings_in_range.
Qed.

Lemma winnings_flat (x : row) (k t : nat) (v : Z) :
  x !! k = Some v -> v <> -1 -> (k < t)%nat ->
  winnings_at x t = winnings_at x (S k).
Proof.
  intros Hk Hv. induction t as [|t IH]; intros Hlt; [lia|].
  destruct (decide (t = k)) as [->|Hne]; [done|].
  rewrite winnings_zero_stake by (eapply stake_after_win; [done..|lia]).
  apply IH. lia.
Qed.

Lemma all_losses_lookup (x : row) (k t : nat) (v : Z) :
  all_losses x t = true -> (k < t)%nat -> x !! k = Some v -> v = -1.
Proof. rewrite all_losses_spec. eauto. Qed.

(** While every toss is a loss the winnings are [1 - 2^(t+1)], in 64 bits. *)
Lemma winnings_all_losses (x : row) (t : nat) :
  all_losses x (S t) = true -> (t < length x)%nat ->
  winnings_at x t = wrap (1 - 2 ^ Z.of_nat (S t)).
Proof.
  induction t as [|t IH]; intros Hall Hlen.
  - destruct (lookup_lt_is_Some_2 x 0 Hlen) as [v Hv].
    cbn [winnings_at]. rewrite stake_at_0, (lookup_total_Some _ _ _ Hv).
    by rewrite (all_losses_lookup _ _ _ _ Hall (Nat.lt_0_succ 0) Hv).
  - destruct (lookup_lt_is_Some_2 x (S t) Hlen) as [v Hv].
    pose proof (all_losses_mono x (S t) (S (S t)) ltac:(lia) Hall) as Hall'.
    cbn [winnings_at]. rewrite betting_at_S, (lookup_total_Some _ _ _ Hv).
    rewrite (all_losses_mono x t (S (S t))) by (lia || done).
    rewrite IH by (done || lia).
    rewrite (all_losses_lookup _ _ _ _ Hall (Nat.lt_succ_diag_r (S t)) Hv).
    unfold stake_at. rewrite Hall'. unfold int_add, int_mul.
    rewrite wrap_mul_l, wrap_add_l, wrap_add_r.
    f_equal. rewrite (pow2_succ (S t)). lia.
Qed.

(** The first win brings the winnings to exactly [1], whatever the number of
    losses before it. *)
Lemma winnings_at_first_win (x : row) (k : nat) :
  all_losses x k = true -> x !! k = Some 1 -> winnings_at x k = 1.
Proof.
  intros Hall Hk.
  assert (Hlen : (k < length x)%nat) by (by eapply lookup_lt_Some).
  destruct k as [|k].
  - cbn [winnings_at]. by rewrite stake_at_0, (lookup_total_Some _ _ _ Hk).
  - cbn [winnings_at]. rewrite betting_at_S, (lookup_total_Some _ _ _ Hk).
    rewrite (all_losses_mono x k (S k)) by (lia || done).
    rewrite winnings_all_losses by (done || lia).
    unfold stake_at. rewrite Hall. unfold int_add, int_mul.
    rewrite wrap_mul_l, wrap_add_l, wrap_add_r.
    replace (1 - 2 ^ Z.of_nat (S k) + 2 ^ Z.of_nat (S k) * 1) with 1 by lia.
    reflexivity.
Qed.

Lemma winnings_after_first_win (x : row) (k t : nat) :
  all_losses x k = true -> x !! k = Some 1 -> (k <= t)%nat ->
  winnings_at x t = 1.
Proof.
  intros Hall Hk Hle.
  assert (H1 : winnings_at x (S k) = 1).
  { rewrite winnings_zero_stake by (by eapply (stake_after_win x k); [done | | lia]).
    by apply winnings_at_first_win. }
  destruct (decide (t = k)) as [->|Hne]; [by apply winnings_at_first_win|].
  rewrite (winnings_flat x k t 1) by (done || lia). exact H1.
Qed.

(** Below step 63 nothing overflows: the 64-bit operations of the loop are
    the mathematical ones. *)
Lemma stake_bounds (x : row) (t : nat) :
  (t <= 62)%nat -> 0 <= stake_at x t <= 2 ^ Z.of_nat t.
Proof.
  intros H. rewrite stake_small by done. pose proof (pow2_le_62 t H).
  destruct (all_losses x t); lia.
Qed.

Lemma int_mul_toss_exact (b v : Z) (t : nat) :
  (t <= 62)%nat -> 0 <= b <= 2 ^ Z.of_nat t -> v = -1 \/ v = 1 ->
  int_mul b v = b * v /\ Z.abs (b * v) <= 2 ^ Z.of_nat t.
Proof.
  intros Ht Hb Hv. pose proof (pow2_le_62 t Ht).
  assert (Habs : Z.abs (b * v) <= 2 ^ Z.of_nat t) by (destruct Hv as [-> | ->]; lia).
  split; [|done]. apply wrap_id. range_numbers. lia.
Qed.

Lemma winnings_bound (x : row) (t : nat) :
  Forall (fun v => v = -1 \/ v = 1) x -> (t < length x)%nat -> (t <= 62)%nat ->
  Z.abs (winnings_at x t) < 2 ^ Z.of_nat (S t).
Proof.
  intros Hx. induction t as [|t IH]; intros Hlen Ht.
  - destruct (lookup_lt_is_Some_2 x 0 Hlen) as [v Hv].
    pose proof (Forall_lookup_1 _ _ _ _ Hx Hv) as Htoss.
    cbn [winnings_at]. rewrite stake_at_0, (lookup_total_Some _ _ _ Hv).
    destruct Htoss as [-> | ->]; vm_compute; done.
  - destruct (lookup_lt_is_Some_2 x (S t) Hlen) as [v Hv].
    pose proof (Forall_lookup_1 _ _ _ _ Hx Hv) as Htoss.
    specialize (IH ltac:(lia) ltac:(lia)).
    pose proof (pow2_le_62 (S t) Ht) as Hp.
    rewrite (pow2_succ (S t)).
    cbn [winnings_at]. destruct (betting_at x (S t)); [|lia].
    rewrite (lookup_total_Some _ _ _ Hv).
    destruct (int_mul_toss_exact (stake_at x (S t)) v (S t) Ht
                (stake_bounds _ _ Ht) Htoss) as [-> Habs].
    unfold int_add. rewrite wrap_id; [lia|]. range_numbers. lia.
Qed.

Lemma winnings_step_exact (x : row) (t : nat) (v : Z) :
  Forall (fun v => v = -1 \/ v = 1) x -> x !! S t = Some v -> (S t <= 62)%nat ->
  int_mul (stake_at x (S t)) v = stake_at x (S t) * v /\
  int_add (winnings_at x t) (int_mul (stake_at x (S t)) v)
  = winnings_at x t + stake_at x (S t) * v.
Proof.
  intros Hx Hv Ht.
  assert (Hlen : (S t < length x)%nat) by (by eapply lookup_lt_Some).
  pose proof (Forall_lookup_1 _ _ _ _ Hx Hv) as Htoss.
  pose proof (winnings_bound x t Hx ltac:(lia) ltac:(lia)) as Hw.
  pose proof (pow2_le_62 (S t) Ht) as Hp.
  destruct (int_mul_toss_exact (stake_at x (S t)) v (S t) Ht
              (stake_bounds _ _ Ht) Htoss) as [-> Habs].
  split; [done|]. unfold int_add. apply wrap_id. range_numbers. lia.
Qed.

Lemma int_mul_2_exact (x : row) (t : nat) :
  (S t <= 62)%nat -> int_mul 2 (stake_at x t) = 2 * stake_at x t.
Proof.
  intros Ht. pose proof (stake_bounds x t ltac:(lia)).
  pose proof (pow2_le_62 (S t) Ht) as Hp. rewrite pow2_succ in Hp.
  apply wrap_id. range_numbers. lia.
Qed.

(** The two runs worked out in the specification. *)
Example run_win_at_step_0 :
  simulate_martingale_betting_strategy 1 3 [[1; -1; 1]]
  = Ok ([[1; -1; 1]], [[1; 0; 0]], [[1; 1; 1]]).
Proof. vm_compute. reflexivity. Qed.

Example run_win_at_step_1 :
  simulate_martingale_betting_strategy 1 3 [[-1; 1; -1]]
  = Ok ([[-1; 1; -1]], [[1; 2; 0]], [[-1; 1; 1]]).
Proof. vm_compute. reflexivity. Qed.

(** ** Structure of the run *)

Lemma bind_assoc {A B C} (m : result A) (f : A -> result B) (g : B -> result C) :
  bind (bind m f) g = bind m (fun a => bind (f a) g).
Proof. destruct m; reflexivity. Qed.

Lemma py_range_succ (t : Z) : 0 <= t -> py_range (t + 1) = py_range t ++ [t].
Proof.
  intros H. rewrite <- (Z2Nat.id t) at 1 by done.
  replace (Z.of_nat (Z.to_nat t) + 1) with (Z.of_nat (S (Z.to_nat t))) by lia.
  rewrite py_range_S. by rewrite Z2Nat.id.
Qed.

(** Entering step [t + 1] is entering step [t] and running the body once. *)
Lemma state_entering_succ (X : matrix) (n_steps i t : Z) :
  0 <= t ->
  state_entering X n_steps i (t + 1)
  = bind (state_entering X n_steps i t) (step X i t).
Proof.
  intros Ht. unfold state_entering. rewrite bind_assoc.
  destruct (for_each (py_range i) _ _) as [BW|e]; [|reflexivity].
  cbn [bind]. rewrite py_range_succ, for_each_app by done.
  destruct (for_each (py_range t) (step X i) _) as [s|e]; [|reflexivity].
  cbn [bind for_each]. by destruct (step X i t s).
Qed.

Lemma run_at (n_paths n_steps : Z) (X : matrix) (i t : Z) :
  has_shape X n_paths n_steps -> 0 <= i < n_paths -> 0 <= t < n_steps ->
  exists x s s',
    X !! Z.to_nat i = Some x /\ Z.of_nat (length x) = n_steps
    /\ state_entering X n_steps i t = Ok s
    /\ betting s = betting_at x (Z.to_nat t)
    /\ step X i t s = Ok s'
    /\ betting s' = betting_at x (S (Z.to_nat t))
    /\ state_entering X n_steps i (t + 1) = Ok s'
    /\ (0 < t -> getitem2 (W s) i (t - 1) = Ok (winnings_at x (Z.to_nat (t - 1)))).
Proof.
  intros HS Hi Ht.
  destruct (shape_row X n_paths n_steps i HS Hi) as (x & Hx & Lx).
  destruct (state_entering_ok X n_paths n_steps (Z.to_nat i) (Z.to_nat t) x HS Hx)
    as (s & rb & rw & Hs & Hbet & HB & HW & Lb & Lw & Pb & Pw); [lia|].
  rewrite !Z2Nat.id in Hs by lia.
  destruct s as [bet Bm Wm]. cbn [betting B W] in *. subst bet.
  pose proof (step_ok X Bm Wm (Z.to_nat i) (Z.to_nat t) x rb rw Hx HB HW Lb Lw
                ltac:(lia)
                ltac:(intros k Hk; apply Pb; lia)
                ltac:(intros k Hk; apply Pw; lia)) as Hstep.
  rewrite !Z2Nat.id in Hstep by lia.
  eexists x, _, _.
  split; [exact Hx|]. split; [exact Lx|]. split; [exact Hs|].
  split; [reflexivity|]. split; [exact Hstep|]. split; [reflexivity|]. split.
  - rewrite state_entering_succ, Hs by lia. exact Hstep.
  - intros Hpos.
    rewrite <- (Z2Nat.id i), <- (Z2Nat.id (t - 1)) by lia. rewrite !Nat2Z.id.
    eapply getitem2_nat; [done|]. apply Pw. lia.
Qed.

(** * The betting simulator *)

(** C10: the stopped branch is never taken at steps 0 and 1, so its read
    [W[i, t - 1]] is at a position [t - 1 >= 1]: the index is never negative
    and is used as it stands. Every step of every path returns (no
    [IndexError]), and so does the whole simulation. *)
Theorem stopped_branch_reads_forward (n_paths n_steps : Z) (X : matrix) (i t : Z) :
  has_shape X n_paths n_steps -> 0 <= i < n_paths -> 0 <= t < n_steps ->
  exists s s' BW,
    state_entering X n_steps i t = Ok s /\
    step X i t s = Ok s' /\
    simulate_martingale_betting_strategy n_paths n_steps X = Ok BW /\
    (t = 0 -> betting s = true) /\
    (betting s = false ->
       2 <= t /\
       norm_index (Z.to_nat n_steps) (t - 1) = Ok (Z.to_nat (t - 1)) /\
       exists w, getitem2 (W s) i (t - 1) = Ok w).
Proof.
  intros HS Hi Ht.
  destruct (run_at n_paths n_steps X i t HS Hi Ht)
    as (x & s & s' & Hx & Lx & Hs & Hbet & Hstep & _ & _ & Hread).
  exists s, s', (X, stakes_row <$> X, winnings_row <$> X).
  split; [done|]. split; [done|]. split; [by apply simulate_ok|]. split.
  - intros ->. by rewrite Hbet.
  - intros Hstop. rewrite Hbet in Hstop.
    assert (Ht2 : 2 <= t).
    { destruct (Z.to_nat t) as [|[|k]] eqn:E; [done..|lia]. }
    split; [done|]. split.
    + rewrite <- (Z2Nat.id (t - 1)) at 1 by lia. apply norm_index_nat. lia.
    + eexists. apply Hread. lia.
Qed.

Lemma stopped_branch_reads_forward_witness :
  exists s s' BW,
    state_entering [[1; -1; 1]] 3 0 2 = Ok s /\
    step [[1; -1; 1]] 0 2 s = Ok s' /\
    simulate_martingale_betting_strategy 1 3 [[1; -1; 1]] = Ok BW /\
    (2 = 0 -> betting s = true) /\
    (betting s = false ->
       2 <= 2 /\
       norm_index (Z.to_nat 3) (2 - 1) = Ok (Z.to_nat (2 - 1)) /\
       exists w, getitem2 (W s) 0 (2 - 1) = Ok w).
Proof.
  apply (stopped_branch_reads_forward 1 3 [[1; -1; 1]] 0 2).
  - repeat split; [lia | repeat constructor].
  - lia.
  - lia.
Defined.

(** C4: once a path has won at step [t - 1], its bet at step [t] and at every
    later step [t'] is exactly 0 and its winnings at [t'] are those of step
    [t]. *)
Theorem stop_after_first_win (n_paths n_steps : Z) (X : matrix) (i t t' : Z) :
  has_shape X n_paths n_steps -> 0 <= i < n_paths ->
  1 <= t -> t <= t' < n_steps ->
  getitem2 X i (t - 1) = Ok 1 ->
  exists B W w,
    simulate_martingale_betting_strategy n_paths n_steps X = Ok (X, B, W) /\
    getitem2 B i t = Ok 0 /\ getitem2 B i t' = Ok 0 /\
    getitem2 W i t = Ok w /\ getitem2 W i t' = Ok w.
Proof.
  intros HS Hi Ht Ht' Hwin.
  destruct (shape_row X n_paths n_steps i HS Hi) as (x & Hx & Lx).
  apply getitem2_Ok in Hwin as (x' & Hx' & Hwin); [|lia..].
  rewrite Hx in Hx'. injection Hx' as <-.
  exists (stakes_row <$> X), (winnings_row <$> X), (winnings_at x (Z.to_nat t)).
  split; [by apply simulate_ok|].
  rewrite !(cell_stakes X i _ x Hx), !(cell_winnings X i _ x Hx) by lia.
  rewrite !(stake_after_win x (Z.to_nat (t - 1)) _ 1 Hwin) by lia.
  repeat split.
  destruct (decide (t' = t)) as [->|Hne]; [done|].
  rewrite (winnings_flat x (Z.to_nat (t - 1)) (Z.to_nat t') 1 Hwin) by lia.
  do 2 f_equal. f_equal. lia.
Qed.

Lemma stop_after_first_win_witness :
  exists B W w,
    simulate_martingale_betting_strategy 1 4 lose_then_win = Ok (lose_then_win, B, W) /\
    getitem2 B 0 2 = Ok 0 /\ getitem2 B 0 3 = Ok 0 /\
    getitem2 W 0 2 = Ok w /\ getitem2 W 0 3 = Ok w.
Proof.
  apply (stop_after_first_win 1 4 lose_then_win 0 2 3).
  - repeat split; [lia | repeat constructor].
  - lia.
  - lia.
  - lia.
  - reflexivity.
Defined.

(** C8: a path whose first win is at step [k] has winnings exactly 1 at every
    step [t >= k], however many losses came before (also when the stakes
    wrapped around on the way). *)
Theorem winnings_one_after_first_win (n_paths n_steps : Z) (X : matrix) (i k t : Z) :
  has_shape X n_paths n_steps -> 0 <= i < n_paths ->
  0 <= k -> k <= t < n_steps ->
  (forall j, 0 <= j < k -> getitem2 X i j = Ok (-1)) ->
  getitem2 X i k = Ok 1 ->
  exists B W,
    simulate_martingale_betting_strategy n_paths n_steps X = Ok (X, B, W) /\
    getitem2 W i t = Ok 1.
Proof.
  intros HS Hi Hk Ht Hloss Hwin.
  destruct (shape_row X n_paths n_steps i HS Hi) as (x & Hx & Lx).
  apply getitem2_Ok in Hwin as (x' & Hx' & Hwin); [|lia..].
  rewrite Hx in Hx'. injection Hx' as <-.
  assert (Hall : all_losses x (Z.to_nat k) = true).
  { apply all_losses_spec. intros j v Hj Hv.
    specialize (Hloss (Z.of_nat j) ltac:(lia)).
    apply getitem2_Ok in Hloss as (x' & Hx' & Hl); [|lia..].
    rewrite Hx in Hx'. injection Hx' as <-.
    rewrite Nat2Z.id in Hl. congruence. }
  exists (stakes_row <$> X), (winnings_row <$> X).
  split; [by apply simulate_ok|].
  rewrite (cell_winnings X i _ x Hx) by lia.
  f_equal. apply (winnings_after_first_win x (Z.to_nat k)); [done..|lia].
Qed.

Lemma winnings_one_after_first_win_witness :
  exists B W,
    simulate_martingale_betting_strategy 1 4 lose_then_win = Ok (lose_then_win, B, W) /\
    getitem2 W 0 3 = Ok 1.
Proof.
  apply (winnings_one_after_first_win 1 4 lose_then_win 0 1 3).
  - repeat split; [lia | repeat constructor].
  - lia.
  - lia.
  - lia.
  - intros j Hj. assert (j = 0) as -> by lia. reflexivity.
  - reflexivity.
Defined.

(** What one step of the loop computes: the stake is 1 at step 0; at a step
    [t > 0] entered while betting, a loss at [t - 1] doubles the stake and
    keeps the path betting, anything else sets the stake to 0 and stops the
    path; the winnings are [W[t - 1] + b * X[t]] while betting and
    [W[t - 1]] once stopped, and the stake is 0 from the stop on. The
    doubling and the sum are computed on signed 64-bit integers ([int_mul],
    [int_add]); up to step 62 they are the mathematical ones, so the rule of
    the docstring holds there. *)
Theorem step_rule (n_paths n_steps : Z) (X : matrix) (i t : Z) :
  has_shape X n_paths n_steps -> 0 <= i < n_paths -> 0 <= t < n_steps ->
  exists B W s s' b w x,
    simulate_martingale_betting_strategy n_paths n_steps X = Ok (X, B, W) /\
    state_entering X n_steps i t = Ok s /\
    state_entering X n_steps i (t + 1) = Ok s' /\
    getitem2 B i t = Ok b /\ getitem2 W i t = Ok w /\ getitem2 X i t = Ok x /\
    (t = 0 ->
       betting s = true /\ b = 1 /\ w = int_mul b x /\
       (x = -1 \/ x = 1 -> w = b * x)) /\
    (0 < t ->
       exists bp wp xp,
         getitem2 B i (t - 1) = Ok bp /\ getitem2 W i (t - 1) = Ok wp /\
         getitem2 X i (t - 1) = Ok xp /\
         if betting s then
           (xp = -1 ->
              b = int_mul 2 bp /\ betting s' = true /\ (t <= 62 -> b = 2 * bp)) /\
           (xp <> -1 ->
              b = 0 /\ betting s' = false /\ w = wp /\
              forall t', t <= t' < n_steps -> getitem2 B i t' = Ok 0) /\
           w = int_add wp (int_mul b x) /\
           (t <= 62 -> is_toss_matrix X -> w = wp + b * x)
         else
           b = 0 /\ betting s' = false /\ w = wp /\
           forall t', t <= t' < n_steps -> getitem2 B i t' = Ok 0).
Proof.
  intros HS Hi Ht.
  destruct (run_at n_paths n_steps X i t HS Hi Ht)
    as (x & s & s' & Hx & Lx & Hs & Hbet & _ & Hbet' & Hs' & _).
  destruct (cell_tosses X i t x Hx) as [Hxt Hget]; [lia..|].
  exists (stakes_row <$> X), (winnings_row <$> X), s, s',
    (stake_at x (Z.to_nat t)), (winnings_at x (Z.to_nat t)), (x !!! Z.to_nat t).
  split; [by apply simulate_ok|]. split; [done|]. split; [done|].
  split; [apply (cell_stakes X i t x Hx); lia|].
  split; [apply (cell_winnings X i t x Hx); lia|].
  split; [done|]. split.
  - (* step 0 *)
    intros ->. rewrite Hbet. change (Z.to_nat 0) with 0%nat.
    rewrite betting_at_0, stake_at_0. repeat split.
    intros Hv. cbn [winnings_at]. rewrite stake_at_0.
    destruct Hv as [-> | ->]; reflexivity.
  - (* later steps *)
    intros Hpos.
    destruct (cell_tosses X i (t - 1) x Hx) as [Hxp Hgetp]; [lia..|].
    exists (stake_at x (Z.to_nat (t - 1))), (winnings_at x (Z.to_nat (t - 1))),
      (x !!! Z.to_nat (t - 1)).
    split; [apply (cell_stakes X i (t - 1) x Hx); lia|].
    split; [apply (cell_winnings X i (t - 1) x Hx); lia|].
    split; [done|].
    rewrite Hbet, Hbet'.
    destruct (Z.to_nat t) as [|k] eqn:Ek; [lia|].
    replace (Z.to_nat (t - 1)) with k in * by lia.
    rewrite (betting_at_S x k), (betting_at_S x (S k)).
    cbn [winnings_at]. rewrite !(betting_at_S x k).
    rewrite !(stake_at_S _ _ _ Hxp), (all_losses_S _ _ _ Hxp).
    assert (Hzero : all_losses x (S k) = false ->
              forall t', t <= t' < n_steps -> getitem2 (stakes_row <$> X) i t' = Ok 0).
    { intros Hf t' Ht'. rewrite (cell_stakes X i t' x Hx) by lia.
      unfold stake_at. by rewrite (all_losses_false_mono x (S k) (Z.to_nat t')) by (lia || done). }
    rewrite (all_losses_S _ _ _ Hxp) in Hzero.
    destruct (all_losses x k) eqn:Eall; cbn [andb] in *.
    + split; [|split; [|split]].
      * intros ->. cbn [Z.eqb Pos.eqb]. unfold stake_at. rewrite Eall.
        unfold int_mul. rewrite wrap_mul_r, <- pow2_succ.
        repeat split. intros H62.
        rewrite !wrap_pow2_small by lia. apply pow2_succ.
      * intros Hne. destruct (Z.eqb_spec (x !!! k) (-1)) as [|_]; [done|].
        repeat split; [|by apply Hzero].
        unfold int_add, int_mul. rewrite Z.mul_0_l, wrap_add_r, Z.add_0_r.
        apply wrap_id, winnings_in_range.
      * reflexivity.
      * intros H62 Htoss.
        assert (Hrow : Forall (fun v => v = -1 \/ v = 1) x)
          by (by eapply (Forall_lookup_1 _ X)).
        assert (Hb : stake_at x (S k)
                     = if x !!! k =? -1 then wrap (2 ^ Z.of_nat (S k)) else 0)
          by (by rewrite (stake_at_S _ _ _ Hxp), Eall).
        rewrite <- Hb.
        apply (winnings_step_exact x k _ Hrow Hxt). lia.
    + repeat split. by apply Hzero.
Qed.

Lemma step_rule_witness :
  exists B W s s' b w x,
    simulate_martingale_betting_strategy 1 4 lose_then_win = Ok (lose_then_win, B, W) /\
    state_entering lose_then_win 4 0 1 = Ok s /\
    state_entering lose_then_win 4 0 (1 + 1) = Ok s' /\
    getitem2 B 0 1 = Ok b /\ getitem2 W 0 1 = Ok w /\ getitem2 lose_then_win 0 1 = Ok x /\
    (1 = 0 ->
       betting s = true /\ b = 1 /\ w = int_mul b x /\
       (x = -1 \/ x = 1 -> w = b * x)) /\
    (0 < 1 ->
       exists bp wp xp,
         getitem2 B 0 (1 - 1) = Ok bp /\ getitem2 W 0 (1 - 1) = Ok wp /\
         getitem2 lose_then_win 0 (1 - 1) = Ok xp /\
         if betting s then
           (xp = -1 ->
              b = int_mul 2 bp /\ betting s' = true /\ (1 <= 62 -> b = 2 * bp)) /\
           (xp <> -1 ->
              b = 0 /\ betting s' = false /\ w = wp /\
              forall t', 1 <= t' < 4 -> getitem2 B 0 t' = Ok 0) /\
           w = int_add wp (int_mul b x) /\
           (1 <= 62 -> is_toss_matrix lose_then_win -> w = wp + b * x)
         else
           b = 0 /\ betting s' = false /\ w = wp /\
           forall t', 1 <= t' < 4 -> getitem2 B 0 t' = Ok 0).
Proof.
  apply (step_rule 1 4 lose_then_win 0 1).
  - repeat split; [lia | repeat constructor].
  - lia.
  - lia.
Defined.

Lemma losing_streak_shape : has_shape losing_streak 1 64.
Proof. repeat split; [lia | repeat constructor]. Qed.

(** Hence the doubling rule does not hold at every step: at step 63 of a
    path that has lost 63 times the path is betting, the toss before was a
    loss, and the stake is not twice the stake of the step before. *)
Lemma doubling_wraps_at_step_63 :
  ~ (forall B W s bp b,
       simulate_martingale_betting_strategy 1 64 losing_streak = Ok (losing_streak, B, W) ->
       state_entering losing_streak 64 0 63 = Ok s ->
       betting s = true ->
       getitem2 losing_streak 0 62 = Ok (-1) ->
       getitem2 B 0 62 = Ok bp ->
       getitem2 B 0 63 = Ok b ->
       b = 2 * bp).
Proof.
  intros H.
  destruct (state_entering losing_streak 64 0 63) as [s|e] eqn:Es;
    [|by vm_compute in Es].
  assert (Hbet : betting s = true) by (vm_compute in Es; by injection Es as <-).
  specialize (H (stakes_row <$> losing_streak) (winnings_row <$> losing_streak) s
                (2 ^ 62) (- 2 ^ 63)
                (simulate_ok 1 64 losing_streak losing_streak_shape)
                eq_refl Hbet).
  assert (Hc : - 2 ^ 63 = 2 * 2 ^ 62) by (apply H; vm_compute; reflexivity).
  vm_compute in Hc. discriminate Hc.
Qed.

(** What the loop stores as a bet: [B[i, t]] is 0 or [2^t] reduced to 64
    bits. Up to step 62 that is [2^t] itself, and the bet is [2^t] exactly
    when [t = 0], or the tosses [X[i, 0..t-2]] are all losses, the path is
    still betting on entering step [t] and [X[i, t-1]] is a loss. *)
Theorem bet_is_zero_or_power_of_two (n_paths n_steps : Z) (X : matrix) (i t : Z) :
  has_shape X n_paths n_steps -> 0 <= i < n_paths -> 0 <= t < n_steps ->
  exists B W s b,
    simulate_martingale_betting_strategy n_paths n_steps X = Ok (X, B, W) /\
    state_entering X n_steps i t = Ok s /\
    getitem2 B i t = Ok b /\
    (b = 0 \/ b = wrap (2 ^ t)) /\
    (t <= 62 ->
       (b = 0 \/ b = 2 ^ t) /\
       (b = 2 ^ t <->
          t = 0 \/
          ((forall k, 0 <= k < t - 1 -> getitem2 X i k = Ok (-1)) /\
           betting s = true /\
           getitem2 X i (t - 1) = Ok (-1)))).
Proof.
  intros HS Hi Ht.
  destruct (run_at n_paths n_steps X i t HS Hi Ht)
    as (x & s & s' & Hx & Lx & Hs & Hbet & _).
  exists (stakes_row <$> X), (winnings_row <$> X), s, (stake_at x (Z.to_nat t)).
  split; [by apply simulate_ok|]. split; [done|].
  split; [apply (cell_stakes X i t x Hx); lia|].
  replace (2 ^ t) with (2 ^ Z.of_nat (Z.to_nat t)) by (f_equal; lia).
  split; [apply stake_cases|].
  intros H62. rewrite stake_small by lia.
  pose proof (pow2_le_62 (Z.to_nat t) ltac:(lia)) as Hp.
  split; [destruct (all_losses x (Z.to_nat t)); auto|].
  rewrite Hbet. split.
  - intros Hb.
    destruct (all_losses x (Z.to_nat t)) eqn:Eall; [|lia].
    destruct (decide (t = 0)) as [->|Hne]; [by left|right].
    assert (Hcell : forall k, 0 <= k < t -> getitem2 X i k = Ok (-1)).
    { intros k Hk. destruct (cell_tosses X i k x Hx) as [Hl ->]; [lia..|].
      f_equal. eapply (all_losses_lookup x (Z.to_nat k) (Z.to_nat t)); [done|lia|done]. }
    split; [intros k Hk; apply Hcell; lia|].
    split; [|apply Hcell; lia].
    unfold betting_at. apply (all_losses_mono x _ (Z.to_nat t)); [lia|done].
  - intros [-> | (_ & Hb & Hlast)]; [reflexivity|].
    destruct (decide (t = 0)) as [->|Hne]; [reflexivity|].
    apply getitem2_Ok in Hlast as (x' & Hx' & Hlast); [|lia..].
    rewrite Hx in Hx'. injection Hx' as <-.
    replace (Z.to_nat t) with (S (Z.to_nat (t - 1))) in * by lia.
    rewrite betting_at_S in Hb.
    by rewrite (all_losses_S _ _ _ Hlast), Hb.
Qed.

Lemma bet_is_zero_or_power_of_two_witness :
  exists B W s b,
    simulate_martingale_betting_strategy 1 4 lose_then_win = Ok (lose_then_win, B, W) /\
    state_entering lose_then_win 4 0 1 = Ok s /\
    getitem2 B 0 1 = Ok b /\
    (b = 0 \/ b = wrap (2 ^ 1)) /\
    (1 <= 62 ->
       (b = 0 \/ b = 2 ^ 1) /\
       (b = 2 ^ 1 <->
          1 = 0 \/
          ((forall k, 0 <= k < 1 - 1 -> getitem2 lose_then_win 0 k = Ok (-1)) /\
           betting s = true /\
           getitem2 lose_then_win 0 (1 - 1) = Ok (-1)))).
Proof.
  apply (bet_is_zero_or_power_of_two 1 4 lose_then_win 0 1).
  - repeat split; [lia | repeat constructor].
  - lia.
  - lia.
Defined.

(** Hence not every bet is 0 or [2^t]: at step 63 of a path that has lost
    63 times the bet is neither. *)
Lemma bet_at_step_63_is_negative :
  ~ (forall B W b,
       simulate_martingale_betting_strategy 1 64 losing_streak = Ok (losing_streak, B, W) ->
       getitem2 B 0 63 = Ok b ->
       b = 0 \/ b = 2 ^ 63).
Proof.
  intros H.
  specialize (H (stakes_row <$> losing_streak) (winnings_row <$> losing_streak)
                (- 2 ^ 63)
                (simulate_ok 1 64 losing_streak losing_streak_shape)).
  destruct H as [Hc|Hc]; [vm_compute; reflexivity | |];
    vm_compute in Hc; discriminate Hc.
Qed.

Lemma long_losing_streak_shape : has_shape long_losing_streak 1 66.
Proof. repeat split; [lia | repeat constructor]. Qed.

(** C1, a defect of the code: the stake is not doubled after every loss, as
    the docstring ("Doubles bet each time there's a loss") and the comment
    of line 36 ("then double after each loss") have it. On a path of 66
    losses, the path is betting on entering step 63 and the toss of step 62
    is a loss, yet the stake goes from [2^62] to [-2^63]; it is again
    betting on entering step 64 after a loss at step 63, yet the stake goes
    from [-2^63] to 0. The product [2 * B[i, t - 1]] of line 40 overflows
    the 64-bit entry. *)
Lemma stake_not_doubled_at_step_63 :
  exists B W s s',
    simulate_martingale_betting_strategy 1 66 long_losing_streak
    = Ok (long_losing_streak, B, W) /\
    state_entering long_losing_streak 66 0 63 = Ok s /\ betting s = true /\
    getitem2 long_losing_streak 0 62 = Ok (-1) /\
    getitem2 B 0 62 = Ok (2 ^ 62) /\
    getitem2 B 0 63 = Ok (- 2 ^ 63) /\
    - 2 ^ 63 <> 2 * 2 ^ 62 /\
    state_entering long_losing_streak 66 0 64 = Ok s' /\ betting s' = true /\
    getitem2 long_losing_streak 0 63 = Ok (-1) /\
    getitem2 B 0 64 = Ok 0 /\
    0 <> 2 * (- 2 ^ 63).
Proof.
  destruct (state_entering long_losing_streak 66 0 63) as [s|e] eqn:Es;
    [|by vm_compute in Es].
  destruct (state_entering long_losing_streak 66 0 64) as [s'|e] eqn:Es';
    [|by vm_compute in Es'].
  exists (stakes_row <$> long_losing_streak), (winnings_row <$> long_losing_streak),
    s, s'.
  split; [apply simulate_ok, long_losing_streak_shape|].
  split; [reflexivity|].
  split; [vm_compute in Es; by injection Es as <-|].
  split; [vm_compute; reflexivity|].
  split; [vm_compute; reflexivity|].
  split; [vm_compute; reflexivity|].
  split; [vm_compute; discriminate|].
  split; [reflexivity|].
  split; [vm_compute in Es'; by injection Es' as <-|].
  split; [vm_compute; reflexivity|].
  split; [vm_compute; reflexivity|].
  vm_compute. discriminate.
Qed.

(** C9, a defect of the code: a bet is not always 0 or [2^t]. On a path of
    66 losses the bet of step 63 is [-2^63], which is neither 0 nor [2^63];
    and at step 64 the bet is 0 although every toss before is a loss and the
    path is still betting, the case in which the bet should be [2^64]. Both
    come from the overflow of [2 * B[i, t - 1]] at line 40, against the
    docstring ("Bets 1 at first step", "Doubles bet each time there's a
    loss"). *)
Lemma bet_not_a_power_of_two_at_step_63 :
  exists B W s,
    simulate_martingale_betting_strategy 1 66 long_losing_streak
    = Ok (long_losing_streak, B, W) /\
    getitem2 B 0 63 = Ok (- 2 ^ 63) /\
    - 2 ^ 63 <> 0 /\ - 2 ^ 63 <> 2 ^ 63 /\
    state_entering long_losing_streak 66 0 64 = Ok s /\ betting s = true /\
    (forall k, 0 <= k < 64 -> getitem2 long_losing_streak 0 k = Ok (-1)) /\
    getitem2 B 0 64 = Ok 0 /\
    0 <> 2 ^ 64.
Proof.
  destruct (state_entering long_losing_streak 66 0 64) as [s|e] eqn:Es;
    [|by vm_compute in Es].
  exists (stakes_row <$> long_losing_streak), (winnings_row <$> long_losing_streak), s.
  split; [apply simulate_ok, long_losing_streak_shape|].
  split; [vm_compute; reflexivity|].
  split; [vm_compute; discriminate|].
  split; [vm_compute; discriminate|].
  split; [reflexivity|].
  split; [vm_compute in Es; by injection Es as <-|].
  split.
  { intros k Hk. rewrite <- (Z2Nat.id k) by lia.
    apply (getitem2_nat long_losing_streak 0 (Z.to_nat k) (replicate 66 (-1)));
      [reflexivity|].
    apply lookup_replicate_2. lia. }
  split; [vm_compute; reflexivity|].
  vm_compute. discriminate.
Qed.

(** * The martingale checker *)

Lemma column_ok {E} (rows : list (list E)) (n_paths n_steps t : Z) :
  has_shape rows n_paths n_steps -> 0 <= t < n_steps ->
  exists c, column rows t = Ok c /\
            Forall2 (fun r a => r !! Z.to_nat t = Some a) rows c.
Proof.
  intros (_ & _ & HR) Ht. induction HR as [|r rows Hr HR IH].
  - exists []. split; [reflexivity | constructor].
  - destruct IH as (c & Hc & Hall).
    destruct (lookup_lt_is_Some_2 r (Z.to_nat t)) as [a Ha]; [lia|].
    exists (a :: c). split; [|by constructor].
    cbn [column]. rewrite <- (Z2Nat.id t) at 1 by lia.
    rewrite (getitem_nat _ _ _ Ha). cbn [bind]. by rewrite Hc.
Qed.

Lemma check_loop_ok {E} (np_mean : list E -> float) (process : ndarray E)
    (tol : float) (m : nat) :
  wf_ndarray process -> Z.of_nat m <= shape1 process - 1 ->
  exists diffs,
    for_each (py_range (Z.of_nat m)) (check_step np_mean process tol) [] = Ok diffs /\
    length diffs = m /\
    forall t, (t < m)%nat ->
      exists c c',
        column (rows_of process) (Z.of_nat t) = Ok c /\
        column (rows_of process) (Z.of_nat t + 1) = Ok c' /\
        diffs !! t
        = Some (PrimFloat.ltb
                  (PrimFloat.abs (PrimFloat.sub (np_mean c') (np_mean c))) tol).
Proof.
  intros (HS & _ & _). induction m as [|m IH]; intros Hm.
  - exists []. repeat split. intros t Ht. lia.
  - destruct IH as (diffs & Hrun & Hlen & Hent); [lia|].
    destruct (column_ok _ _ _ (Z.of_nat m) HS) as (c & Hc & _); [lia|].
    destruct (column_ok _ _ _ (Z.of_nat m + 1) HS) as (c' & Hc' & _); [lia|].
    eexists. rewrite py_range_S, (for_each_snoc _ _ _ _ _ Hrun).
    unfold check_step. rewrite Hc, Hc'. cbn [bind].
    split; [reflexivity|]. split; [rewrite length_app, Hlen; simpl; lia|].
    intros t Ht. destruct (decide (t = m)) as [->|Hne].
    + exists c, c'. repeat split; try done.
      rewrite lookup_app_r, Hlen, Nat.sub_diag by lia. reflexivity.
    + destruct (Hent t ltac:(lia)) as (d & d' & Hd & Hd' & Hl).
      exists d, d'. repeat split; try done.
      rewrite lookup_app_l by lia. done.
Qed.

(** C6, with the length as the code gives it: the checker returns one
    boolean per [t] in [0..n_steps-2], in increasing order of [t], that is
    [max(n_steps - 1, 0)] of them ([n_steps - 1] as soon as there is a step);
    entry [t] is the binary64 comparison [|mean(t+1) - mean(t)| < tol], where
    [mean(t)] is [np.mean] of the values that the paths, in path order, have
    at step [t]. *)
Theorem check_martingale_property_by_time_spec {E} (np_mean : list E -> float)
    (process : ndarray E) (tol : float) :
  wf_ndarray process ->
  exists diffs,
    check_martingale_property_by_time np_mean process tol = Ok diffs /\
    Z.of_nat (length diffs) = Z.max 0 (shape1 process - 1) /\
    forall t, 0 <= t < shape1 process - 1 ->
      exists c c',
        Forall2 (fun r v => r !! Z.to_nat t = Some v) (rows_of process) c /\
        Forall2 (fun r v => r !! Z.to_nat (t + 1) = Some v) (rows_of process) c' /\
        diffs !! Z.to_nat t
        = Some (PrimFloat.ltb
                  (PrimFloat.abs (PrimFloat.sub (np_mean c') (np_mean c))) tol).
Proof.
  intros Hwf. unfold check_martingale_property_by_time.
  destruct (Z.le_gt_cases 1 (shape1 process)) as [Hge|Hlt].
  - destruct (check_loop_ok np_mean process tol (Z.to_nat (shape1 process - 1)) Hwf)
      as (diffs & Hrun & Hlen & Hent); [lia|].
    rewrite Z2Nat.id in Hrun by lia.
    exists diffs. split; [done|]. split; [lia|].
    intros t Ht. destruct (Hent (Z.to_nat t) ltac:(lia)) as (c & c' & Hc & Hc' & Hl).
    rewrite Z2Nat.id in Hc, Hc' by lia.
    destruct Hwf as (HS & _).
    destruct (column_ok _ _ _ t HS) as (c0 & Hc0 & Hall); [lia|].
    destruct (column_ok _ _ _ (t + 1) HS) as (c1 & Hc1 & Hall'); [lia|].
    rewrite Hc in Hc0. injection Hc0 as <-.
    rewrite Hc' in Hc1. injection Hc1 as <-.
    exists c, c'. done.
  - rewrite py_range_neg by lia. exists []. split; [reflexivity|].
    split; [cbn [length]; lia|]. intros t Ht. lia.
Qed.

Lemma three_paths_wf : wf_ndarray three_paths.
Proof.
  split; [|split]; [|vm_compute; discriminate..].
  split; [reflexivity|]. split; [vm_compute; discriminate|].
  repeat constructor.
Defined.

Lemma check_martingale_property_by_time_witness :
  exists diffs,
    check_martingale_property_by_time np_mean_f64 three_paths default_tol = Ok diffs /\
    Z.of_nat (length diffs) = Z.max 0 (shape1 three_paths - 1) /\
    forall t, 0 <= t < shape1 three_paths - 1 ->
      exists c c',
        Forall2 (fun r v => r !! Z.to_nat t = Some v) (rows_of three_paths) c /\
        Forall2 (fun r v => r !! Z.to_nat (t + 1) = Some v) (rows_of three_paths) c' /\
        diffs !! Z.to_nat t
        = Some (PrimFloat.ltb
                  (PrimFloat.abs (PrimFloat.sub (np_mean_f64 c') (np_mean_f64 c)))
                  default_tol).
Proof.
  apply (check_martingale_property_by_time_spec np_mean_f64 three_paths default_tol).
  exact three_paths_wf.
Defined.

(** C6 as the spec states it fails for a process without steps: on an array
    of shape [(3, 0)] the checker returns the empty list, whose length 0 is
    not [n_steps - 1 = -1]. *)
Lemma checker_on_zero_steps_returns_nothing :
  ~ (forall diffs,
       check_martingale_property_by_time np_mean_f64 no_steps default_tol = Ok diffs ->
       Z.of_nat (length diffs) = shape1 no_steps - 1).
Proof.
  intros H. specialize (H [] eq_refl). discriminate H.
Qed.

(** * Partial sums *)

Lemma length_cumsum_from (acc : Z) (r : row) : length (cumsum_from acc r) = length r.
Proof. revert acc. induction r as [|x r IH]; intros acc; simpl; [done | by rewrite IH]. Qed.

Lemma length_cumsum (r : row) : length (cumsum r) = length r.
Proof. destruct r; simpl; [done | by rewrite length_cumsum_from]. Qed.

Lemma cumsum_lookup_0 (r : row) : cumsum r !! 0%nat = r !! 0%nat.
Proof. by destruct r. Qed.

Lemma cumsum_from_lookup_0 (acc : Z) (r : row) :
  cumsum_from acc r !! 0%nat = int_add acc <$> r !! 0%nat.
Proof. by destruct r. Qed.

Lemma cumsum_from_lookup_S (acc : Z) (r : row) (t : nat) (s x : Z) :
  cumsum_from acc r !! t = Some s -> r !! S t = Some x ->
  cumsum_from acc r !! S t = Some (int_add s x).
Proof.
  revert acc t. induction r as [|a r IH]; intros acc t Hs Hx; [done|].
  change (r !! t = Some x) in Hx.
  destruct t as [|t].
  - change (Some (int_add acc a) = Some s) in Hs. injection Hs as <-.
    change (cumsum_from (int_add acc a) r !! 0%nat
            = Some (int_add (int_add acc a) x)).
    by rewrite cumsum_from_lookup_0, Hx.
  - apply (IH (int_add acc a) t Hs Hx).
Qed.

(** Each partial sum is the one before plus the toss, in 64 bits. *)
Lemma cumsum_lookup_S (r : row) (t : nat) (s x : Z) :
  cumsum r !! t = Some s -> r !! S t = Some x ->
  cumsum r !! S t = Some (int_add s x).
Proof.
  destruct r as [|a r]; [done|]. intros Hs Hx.
  change (r !! t = Some x) in Hx.
  destruct t as [|t].
  - change (Some a = Some s) in Hs. injection Hs as <-.
    change (cumsum_from a r !! 0%nat = Some (int_add a x)).
    by rewrite cumsum_from_lookup_0, Hx.
  - apply (cumsum_from_lookup_S a r t s x Hs Hx).
Qed.

Lemma cumsum_total_S (r : row) (t : nat) :
  (S t < length r)%nat ->
  cumsum r !!! S t = int_add (cumsum r !!! t) (r !!! S t).
Proof.
  intros H. apply list_lookup_total_correct, cumsum_lookup_S.
  - apply list_lookup_lookup_total_lt. rewrite length_cumsum. lia.
  - by apply list_lookup_lookup_total_lt.
Qed.

Lemma cumsum_toss_bound (r : row) (t : nat) :
  Forall (fun v => v = -1 \/ v = 1) r -> (t < length r)%nat ->
  Z.of_nat (length r) <= int_max ->
  Z.abs (cumsum r !!! t) <= Z.of_nat t + 1.
Proof.
  intros Hr. induction t as [|t IH]; intros Hlen Hmax.
  - destruct (lookup_lt_is_Some_2 r 0 Hlen) as [v Hv].
    rewrite (list_lookup_total_correct (cumsum r) 0 v) by (by rewrite cumsum_lookup_0).
    destruct (Forall_lookup_1 _ _ _ _ Hr Hv) as [-> | ->]; simpl; lia.
  - destruct (lookup_lt_is_Some_2 r (S t) Hlen) as [v Hv].
    rewrite cumsum_total_S, (lookup_total_Some _ _ _ Hv) by done.
    specialize (IH ltac:(lia) Hmax).
    pose proof (Forall_lookup_1 _ _ _ _ Hr Hv) as Hv'. cbn beta in Hv'.
    unfold int_add. rewrite wrap_id; [lia|]. range_numbers. lia.
Qed.

Lemma cumsum_toss_exact (r : row) (t : nat) :
  Forall (fun v => v = -1 \/ v = 1) r -> (S t < length r)%nat ->
  Z.of_nat (length r) <= int_max ->
  int_add (cumsum r !!! t) (r !!! S t) = cumsum r !!! t + r !!! S t.
Proof.
  intros Hr Hlen Hmax.
  pose proof (cumsum_toss_bound r t Hr ltac:(lia) Hmax) as Hb.
  destruct (lookup_lt_is_Some_2 r (S t) Hlen) as [v Hv].
  rewrite (lookup_total_Some _ _ _ Hv).
  pose proof (Forall_lookup_1 _ _ _ _ Hr Hv) as Hv'. cbn beta in Hv'.
  apply wrap_id. range_numbers. lia.
Qed.

Lemma column_total (rows : matrix) (n_paths n_steps t : Z) :
  has_shape rows n_paths n_steps -> 0 <= t < n_steps ->
  column rows t = Ok ((fun r => r !!! Z.to_nat t) <$> rows).
Proof.
  intros (_ & _ & HR) Ht. induction HR as [|r rows Hr HR IH]; [reflexivity|].
  cbn [column]. rewrite <- (Z2Nat.id t) at 1 by lia.
  rewrite (getitem_nat r (Z.to_nat t) (r !!! Z.to_nat t))
    by (apply list_lookup_lookup_total_lt; lia).
  cbn [bind]. by rewrite IH.
Qed.

Lemma cumsum_has_shape (rows : matrix) (n_paths n_steps : Z) :
  has_shape rows n_paths n_steps -> has_shape (cumsum <$> rows) n_paths n_steps.
Proof.
  intros (HP & HN & HR). split; [by rewrite length_fmap|]. split; [done|].
  apply Forall_fmap. eapply Forall_impl; [exact HR|].
  intros r Hr. cbn. by rewrite length_cumsum.
Qed.

Lemma columns_zip (op : Z -> Z -> Z) (rows : matrix) (t : nat) :
  Forall (fun r => cumsum r !!! S t = op (cumsum r !!! t) (r !!! S t)) rows ->
  (fun r => r !!! S t) <$> (cumsum <$> rows)
  = zip_with op ((fun r => r !!! t) <$> (cumsum <$> rows)) ((fun r => r !!! S t) <$> rows).
Proof.
  induction 1 as [|r rows Hr _ IH]; [reflexivity|].
  cbn [fmap list_fmap zip_with]. by rewrite Hr, <- IH.
Qed.

(** C5: column 0 of the partial sums is column 0 of the tosses, and every
    later column is the column before plus the column of tosses: as NumPy
    adds them ([int_add]) for every array, and as integers for a toss
    matrix. *)
Theorem partial_sums_round_trip (X : ndarray Z) :
  wf_ndarray X ->
  wf_ndarray (build_partial_sums X) /\
  (0 < shape1 X ->
     exists c,
       column (rows_of (build_partial_sums X)) 0 = Ok c /\
       column (rows_of X) 0 = Ok c) /\
  (forall t, 1 <= t < shape1 X ->
     exists s sp x,
       column (rows_of (build_partial_sums X)) t = Ok s /\
       column (rows_of (build_partial_sums X)) (t - 1) = Ok sp /\
       column (rows_of X) t = Ok x /\
       s = zip_with int_add sp x /\
       (is_toss_matrix (rows_of X) -> s = zip_with Z.add sp x)).
Proof.
  intros (HS & H0 & H1). pose proof (cumsum_has_shape _ _ _ HS) as HS'.
  split; [done|]. cbn [build_partial_sums rows_of]. split.
  - intros Hpos. eexists.
    rewrite (column_total _ _ _ 0 HS'), (column_total _ _ _ 0 HS) by lia.
    split; [reflexivity|]. f_equal.
    rewrite <- list_fmap_compose. apply list_fmap_ext.
    intros _ r _. cbn. change (Z.to_nat 0) with 0%nat.
    unfold lookup_total, list_lookup_total. by destruct r.
  - intros t Ht. eexists _, _, _.
    rewrite (column_total _ _ _ t HS'), (column_total _ _ _ (t - 1) HS'),
      (column_total _ _ _ t HS) by lia.
    split; [reflexivity|]. split; [reflexivity|]. split; [reflexivity|].
    replace (Z.to_nat t) with (S (Z.to_nat (t - 1))) by lia.
    destruct HS as (_ & _ & HR). split.
    + apply columns_zip. eapply Forall_impl; [exact HR|].
      intros r Hr. cbn in Hr. apply cumsum_total_S. lia.
    + intros Htoss. apply columns_zip.
      apply Forall_forall. intros r Hin.
      pose proof (proj1 (Forall_forall _ _) HR r Hin) as Hr. cbn in Hr.
      pose proof (proj1 (Forall_forall _ _) Htoss r Hin) as Hr'.
      rewrite cumsum_total_S by lia. apply cumsum_toss_exact; [done|lia|lia].
Qed.

Lemma partial_sums_round_trip_witness :
  wf_ndarray (build_partial_sums three_paths) /\
  (0 < shape1 three_paths ->
     exists c,
       column (rows_of (build_partial_sums three_paths)) 0 = Ok c /\
       column (rows_of three_paths) 0 = Ok c) /\
  (forall t, 1 <= t < shape1 three_paths ->
     exists s sp x,
       column (rows_of (build_partial_sums three_paths)) t = Ok s /\
       column (rows_of (build_partial_sums three_paths)) (t - 1) = Ok sp /\
       column (rows_of three_paths) t = Ok x /\
       s = zip_with int_add sp x /\
       (is_toss_matrix (rows_of three_paths) -> s = zip_with Z.add sp x)).
Proof.
  apply (partial_sums_round_trip three_paths). exact three_paths_wf.
Defined.

(** * The estimators *)

Lemma getitem_total (r : row) (k : Z) :
  0 <= k < Z.of_nat (length r) -> getitem r k = Ok (r !!! Z.to_nat k).
Proof.
  intros H. rewrite <- (Z2Nat.id k) at 1 by lia.
  apply getitem_nat, list_lookup_lookup_total_lt. lia.
Qed.

Lemma group_history_ok (t : Z) (path : row) (groups : gmap (list Z) (list Z)) :
  0 <= t -> t + 1 < Z.of_nat (length path) ->
  group_history t path groups
  = Ok (setdefault_append groups (history_key t path) (next_value t path)).
Proof.
  intros H0 H1. unfold group_history. by rewrite getitem_total by lia.
Qed.

Lemma group_sum_ok (t : Z) (S : row) (groups : gmap Z (list Z)) :
  0 <= t -> t + 1 < Z.of_nat (length S) ->
  group_sum t S groups
  = Ok (setdefault_append groups (sum_key t S) (next_value t S)).
Proof.
  intros H0 H1. unfold group_sum. by rewrite !getitem_total by lia.
Qed.

Section Grouping.
Context `{Countable K}.
Implicit Types (key : row -> K) (val : row -> Z) (groups : gmap K (list Z)).

Lemma for_each_group_by key val (body : row -> gmap K (list Z) -> result (gmap K (list Z)))
    (rows : list row) groups :
  Forall (fun p => forall g, body p g = Ok (setdefault_append g (key p) (val p))) rows ->
  for_each rows body groups = Ok (group_by key val rows groups).
Proof.
  intros Hall. revert groups.
  induction Hall as [|p rows Hp _ IH]; intros groups; [reflexivity|].
  cbn [for_each]. rewrite Hp. cbn [bind]. apply IH.
Qed.

Lemma group_by_lookup key val (rows : list row) groups (k : K) :
  group_by key val rows groups !! k
  = match val <$> group_members key k rows with
    | [] => groups !! k
    | vs => Some (default [] (groups !! k) ++ vs)
    end.
Proof.
  revert groups. induction rows as [|p rows IH]; intros groups; [reflexivity|].
  unfold group_by, group_members in *. cbn [fold_left]. rewrite IH.
  unfold setdefault_append. destruct (decide (key p = k)) as [<-|Hne].
  - rewrite filter_cons_True by done. rewrite lookup_insert_eq. cbn [fmap list_fmap default].
    destruct (val <$> filter _ rows) as [|v vs]; [done|].
    unfold id. by rewrite <- app_assoc.
  - rewrite filter_cons_False by done. by rewrite lookup_insert_ne.
Qed.

Lemma group_total_empty : group_total (∅ : gmap K (list Z)) = 0%nat.
Proof. unfold group_total. by rewrite map_to_list_empty. Qed.

Lemma group_total_append groups (k : K) (v : Z) :
  group_total (setdefault_append groups k v) = S (group_total groups).
Proof.
  unfold group_total, setdefault_append.
  destruct (groups !! k) as [vs|] eqn:E; cbn [default].
  - rewrite <- insert_delete_eq.
    rewrite map_to_list_insert by apply lookup_delete_eq.
    rewrite <- (map_to_list_delete groups k vs E).
    cbn [sum_list_with snd]. rewrite length_app. simpl. lia.
  - rewrite map_to_list_insert by done. reflexivity.
Qed.

Lemma group_total_group_by key val (rows : list row) groups :
  group_total (group_by key val rows groups) = (group_total groups + length rows)%nat.
Proof.
  revert groups. induction rows as [|p rows IH]; intros groups.
  - simpl. lia.
  - unfold group_by in *. cbn [fold_left length].
    rewrite IH, group_total_append. lia.
Qed.

(** What the groups of a grouping loop are, from the empty dictionary. *)
Lemma group_by_spec key val (rows : list row) :
  let groups := group_by key val rows ∅ in
  (forall k vs, groups !! k = Some vs <->
     vs <> [] /\ vs = val <$> group_members key k rows) /\
  group_total groups = length rows /\
  (forall k, is_Some (groups !! k) <-> exists p, p ∈ rows /\ key p = k) /\
  (forall p, p ∈ rows ->
     is_Some (groups !! key p) /\
     forall k, p ∈ group_members key k rows <-> k = key p).
Proof.
  assert (Hl : forall k vs, group_by key val rows ∅ !! k = Some vs <->
                 vs <> [] /\ vs = val <$> group_members key k rows).
  { intros k vs. rewrite group_by_lookup, lookup_empty. cbn [default app].
    destruct (val <$> group_members key k rows) as [|v l]; split.
    - done.
    - intros [Hne ->]. done.
    - intros [= <-]. done.
    - intros [_ ->]. done. }
  assert (Hdom : forall k, is_Some (group_by key val rows ∅ !! k) <->
                   exists p, p ∈ rows /\ key p = k).
  { intros k. split.
    - intros [vs Hvs]. apply Hl in Hvs as [Hne ->].
      destruct (group_members key k rows) as [|p l] eqn:E; [done|].
      exists p.
      assert (Hp : p ∈ filter (fun p => key p = k) rows)
        by (unfold group_members in E; rewrite E; left).
      apply list_elem_of_filter in Hp as [Hk Hin]. done.
    - intros (p & Hin & Hk). exists (val <$> group_members key k rows).
      apply Hl. split; [|done].
      assert (Hp : p ∈ group_members key k rows)
        by (by apply (list_elem_of_filter (fun p => key p = k))).
      destruct (group_members key k rows); [by apply not_elem_of_nil in Hp | done]. }
  cbn zeta. split; [exact Hl|]. split; [|split; [exact Hdom|]].
  - by rewrite group_total_group_by, group_total_empty.
  - intros p Hp. split; [apply Hdom; eauto|].
    intros k. unfold group_members. rewrite list_elem_of_filter.
    split; [by intros [<- _] | by intros ->].
Qed.

End Grouping.

Lemma history_groups_ok (a : ndarray Z) (t : Z) :
  wf_ndarray a -> 0 <= t < shape1 a - 1 ->
  history_groups a t
  = Ok (group_by (history_key t) (next_value t) (rows_of a) ∅).
Proof.
  intros ((_ & _ & HR) & _) Ht. unfold history_groups.
  apply for_each_group_by. eapply Forall_impl; [exact HR|].
  intros p Hp g. cbn in Hp. apply group_history_ok; lia.
Qed.

Lemma sum_groups_ok (a : ndarray Z) (t : Z) :
  wf_ndarray a -> 0 <= t < shape1 a - 1 ->
  sum_groups a t
  = Ok (group_by (sum_key t) (next_value t) (rows_of a) ∅).
Proof.
  intros ((_ & _ & HR) & _) Ht. unfold sum_groups.
  apply for_each_group_by. eapply Forall_impl; [exact HR|].
  intros p Hp g. cbn in Hp. apply group_sum_ok; lia.
Qed.

Lemma valid_t_test (t n_steps : Z) :
  negb ((0 <=? t) && (t <? n_steps - 1)) = false <-> 0 <= t <= n_steps - 2.
Proof.
  destruct (Z.leb_spec 0 t), (Z.ltb_spec t (n_steps - 1)); cbn; split;
    intros; try done; lia.
Qed.

(** C2: on an array of shape [(n_paths, n_steps)] each estimator raises
    [ValueError] exactly when [t] is outside [0, n_steps - 2], and returns a
    map for every [t] inside. *)
Theorem estimators_raise_iff_t_out_of_range {F} (np_mean : list Z -> F)
    (a : ndarray Z) (t : Z) :
  wf_ndarray a ->
  (estimate_conditional_expectation np_mean a t = Raise ValueError
   <-> ~ (0 <= t <= shape1 a - 2)) /\
  (0 <= t < shape1 a - 1 ->
   exists m, estimate_conditional_expectation np_mean a t = Ok m) /\
  (estimate_conditional_expectation_sums np_mean a t = Raise ValueError
   <-> ~ (0 <= t <= shape1 a - 2)) /\
  (0 <= t < shape1 a - 1 ->
   exists m, estimate_conditional_expectation_sums np_mean a t = Ok m).
Proof.
  intros Hwf.
  unfold estimate_conditional_expectation, estimate_conditional_expectation_sums.
  pose proof (valid_t_test t (shape1 a)) as Htest.
  destruct (negb ((0 <=? t) && (t <? shape1 a - 1))) eqn:E.
  - assert (Hout : ~ (0 <= t <= shape1 a - 2)) by (intros Hin; by apply Htest in Hin).
    repeat split; try done; intros Hin; lia.
  - assert (Hin : 0 <= t <= shape1 a - 2) by (by apply Htest).
    rewrite history_groups_ok, sum_groups_ok by (done || lia). cbn [bind].
    repeat split; try done; eauto.
Qed.

Lemma estimators_raise_iff_t_out_of_range_witness :
  (estimate_conditional_expectation np_mean_f64 three_paths 2 = Raise ValueError
   <-> ~ (0 <= 2 <= shape1 three_paths - 2)) /\
  (0 <= 2 < shape1 three_paths - 1 ->
   exists m, estimate_conditional_expectation np_mean_f64 three_paths 2 = Ok m) /\
  (estimate_conditional_expectation_sums np_mean_f64 three_paths 2 = Raise ValueError
   <-> ~ (0 <= 2 <= shape1 three_paths - 2)) /\
  (0 <= 2 < shape1 three_paths - 1 ->
   exists m, estimate_conditional_expectation_sums np_mean_f64 three_paths 2 = Ok m).
Proof.
  apply (estimators_raise_iff_t_out_of_range np_mean_f64 three_paths 2).
  exact three_paths_wf.
Defined.



(** C7: on the paths [[1,1,-1],[1,1,1],[1,-1,1]] with [t = 1] the history
    estimator returns exactly two entries, the mean of [-1, 1] under the key
    [(1, 1)] and the mean of [1] under the key [(1, -1)]; in binary64 these
    means are [0.0] and [1.0], the second being the single observation of a
    group of size 1. *)
Theorem history_estimator_scenario :
  (forall (F : Type) (np_mean : list Z -> F),
     estimate_conditional_expectation np_mean three_paths 1
     = Ok (<[ [1; 1] := np_mean [-1; 1] ]> {[ [1; -1] := np_mean [1] ]})) /\
  np_mean_f64 [-1; 1] = 0%float /\
  np_mean_f64 [1] = 1%float /\
  estimate_conditional_expectation np_mean_f64 three_paths 1
  = Ok (<[ [1; 1] := 0%float ]> {[ [1; -1] := 1%float ]}) /\
  (forall m, estimate_conditional_expectation np_mean_f64 three_paths 1 = Ok m ->
     size m = 2%nat).
Proof.
  split; [intros F np_mean; vm_compute; reflexivity|].
  split; [vm_compute; reflexivity|].
  split; [vm_compute; reflexivity|].
  split; [vm_compute; reflexivity|].
  intros m Hm. vm_compute in Hm. injection Hm as <-. reflexivity.
Qed.

(** * Further properties of the simulator *)

Lemma length_stakes_row (x : row) : length (stakes_row x) = length x.
Proof. unfold stakes_row. by rewrite length_fmap, length_seq. Qed.

Lemma length_winnings_row (x : row) : length (winnings_row x) = length x.
Proof. unfold winnings_row. by rewrite length_fmap, length_seq. Qed.

Lemma fmap_has_shape (f : row -> row) (X : matrix) (n_paths n_steps : Z) :
  (forall x, length (f x) = length x) ->
  has_shape X n_paths n_steps -> has_shape (f <$> X) n_paths n_steps.
Proof.
  intros Hf (HP & HN & HR). split; [by rewrite length_fmap|]. split; [done|].
  apply Forall_fmap. eapply Forall_impl; [exact HR|].
  intros r Hr. cbn. by rewrite Hf.
Qed.

(** X1: the simulation returns the tosses as they were drawn, and bets and
    winnings of the same shape [(n_paths, n_steps)] whose entries are all
    64-bit values. *)
Theorem simulation_shapes (n_paths n_steps : Z) (X : matrix) :
  has_shape X n_paths n_steps ->
  exists B W,
    simulate_martingale_betting_strategy n_paths n_steps X = Ok (X, B, W) /\
    has_shape B n_paths n_steps /\ has_shape W n_paths n_steps /\
    Forall (Forall in_range) B /\ Forall (Forall in_range) W.
Proof.
  intros HS. exists (stakes_row <$> X), (winnings_row <$> X).
  split; [by apply simulate_ok|].
  split; [by apply fmap_has_shape; [apply length_stakes_row|]|].
  split; [by apply fmap_has_shape; [apply length_winnings_row|]|].
  split; apply Forall_fmap, Forall_forall; intros x _; cbn;
    apply Forall_fmap, Forall_forall; intros t _; cbn.
  - apply stake_in_range.
  - apply winnings_in_range.
Qed.

Lemma simulation_shapes_witness :
  exists B W,
    simulate_martingale_betting_strategy 3 4 twin_paths = Ok (twin_paths, B, W) /\
    has_shape B 3 4 /\ has_shape W 3 4 /\
    Forall (Forall in_range) B /\ Forall (Forall in_range) W.
Proof.
  apply (simulation_shapes 3 4 twin_paths).
  repeat split; [lia | repeat constructor].
Defined.

(** X2: paths do not influence each other. Two paths with the same tosses,
    in the same run or in different runs of the same number of steps, get the
    same row of bets and the same row of winnings. *)
Theorem paths_are_independent (n_paths n_paths' n_steps : Z) (X X' : matrix)
    (i j : Z) (x : row) :
  has_shape X n_paths n_steps -> has_shape X' n_paths' n_steps ->
  0 <= i -> 0 <= j ->
  getitem X i = Ok x -> getitem X' j = Ok x ->
  exists B W B' W' rb rw,
    simulate_martingale_betting_strategy n_paths n_steps X = Ok (X, B, W) /\
    simulate_martingale_betting_strategy n_paths' n_steps X' = Ok (X', B', W') /\
    getitem B i = Ok rb /\ getitem B' j = Ok rb /\
    getitem W i = Ok rw /\ getitem W' j = Ok rw.
Proof.
  intros HS HS' Hi Hj Hx Hx'.
  apply getitem_Ok in Hx, Hx'; [|done..].
  exists (stakes_row <$> X), (winnings_row <$> X),
    (stakes_row <$> X'), (winnings_row <$> X'), (stakes_row x), (winnings_row x).
  split; [by apply simulate_ok|]. split; [by apply simulate_ok|].
  rewrite <- (Z2Nat.id i), <- (Z2Nat.id j) by done.
  repeat split; apply getitem_nat; rewrite list_lookup_fmap;
    by rewrite ?Hx, ?Hx'.
Qed.

Lemma paths_are_independent_witness :
  exists B W B' W' rb rw,
    simulate_martingale_betting_strategy 3 4 twin_paths = Ok (twin_paths, B, W) /\
    simulate_martingale_betting_strategy 1 4 lose_then_win = Ok (lose_then_win, B', W') /\
    getitem B 2 = Ok rb /\ getitem B' 0 = Ok rb /\
    getitem W 2 = Ok rw /\ getitem W' 0 = Ok rw.
Proof.
  apply (paths_are_independent 3 1 4 twin_paths lose_then_win 2 0 [-1; 1; -1; 1]).
  - repeat split; [lia | repeat constructor].
  - repeat split; [lia | repeat constructor].
  - lia.
  - lia.
  - reflexivity.
  - reflexivity.
Defined.

(** X6: on entering step [t] the path is betting exactly when the tosses
    [X[i, 0..t-2]] were all losses; and a path that has stopped betting
    never bets again. *)
Theorem betting_until_first_win (n_paths n_steps : Z) (X : matrix) (i t t' : Z) :
  has_shape X n_paths n_steps -> 0 <= i < n_paths ->
  0 <= t -> t <= t' <= n_steps ->
  exists s s',
    state_entering X n_steps i t = Ok s /\
    state_entering X n_steps i t' = Ok s' /\
    (betting s = true <-> forall k, 0 <= k < t - 1 -> getitem2 X i k = Ok (-1)) /\
    (betting s = false -> betting s' = false).
Proof.
  intros HS Hi Ht Ht'.
  destruct (shape_row X n_paths n_steps i HS Hi) as (x & Hx & Lx).
  destruct (state_entering_ok X n_paths n_steps (Z.to_nat i) (Z.to_nat t) x HS Hx)
    as (s & _ & _ & Hs & Hbet & _); [lia|].
  destruct (state_entering_ok X n_paths n_steps (Z.to_nat i) (Z.to_nat t') x HS Hx)
    as (s' & _ & _ & Hs' & Hbet' & _); [lia|].
  rewrite !Z2Nat.id in Hs, Hs' by lia.
  exists s, s'. split; [done|]. split; [done|].
  rewrite Hbet, Hbet'. unfold betting_at. split.
  - rewrite all_losses_spec. split.
    + intros Hall k Hk.
      destruct (cell_tosses X i k x Hx) as [Hl ->]; [lia..|].
      f_equal. apply (Hall (Z.to_nat k)); [lia|done].
    + intros Hall k v Hk Hv.
      specialize (Hall (Z.of_nat k) ltac:(lia)).
      apply getitem2_Ok in Hall as (x' & Hx' & Hl); [|lia..].
      rewrite Hx in Hx'. injection Hx' as <-.
      rewrite Nat2Z.id in Hl. congruence.
  - apply all_losses_false_mono. lia.
Qed.

Lemma betting_until_first_win_witness :
  exists s s',
    state_entering lose_then_win 4 0 3 = Ok s /\
    state_entering lose_then_win 4 0 4 = Ok s' /\
    (betting s = true <->
       forall k, 0 <= k < 3 - 1 -> getitem2 lose_then_win 0 k = Ok (-1)) /\
    (betting s = false -> betting s' = false).
Proof.
  apply (betting_until_first_win 1 4 lose_then_win 0 3 4).
  - repeat split; [lia | repeat constructor].
  - lia.
  - lia.
  - lia.
Defined.

Lemma sumZ_app (l k : list Z) : sumZ (l ++ k) = sumZ l + sumZ k.
Proof. induction l as [|a l IH]; simpl; [done | rewrite IH; lia]. Qed.

Lemma bet_toss_sum_0 (x : row) (v : Z) :
  x !! 0%nat = Some v ->
  sumZ (zip_with Z.mul (take 1 (stakes_row x)) (take 1 x)) = v.
Proof.
  intros Hv. destruct x as [|v' x]; [done|]. injection Hv as ->.
  cbn. destruct v; reflexivity.
Qed.

Lemma bet_toss_sum_S (x : row) (t : nat) (v : Z) :
  x !! S t = Some v ->
  sumZ (zip_with Z.mul (take (S (S t)) (stakes_row x)) (take (S (S t)) x))
  = sumZ (zip_with Z.mul (take (S t) (stakes_row x)) (take (S t) x))
    + stake_at x (S t) * v.
Proof.
  intros Hv.
  assert (Hlen : (S t < length x)%nat) by (by eapply lookup_lt_Some).
  rewrite (take_S_r (stakes_row x) (S t) _ (stakes_row_lookup x (S t) Hlen)).
  rewrite (take_S_r x (S t) v Hv).
  rewrite zip_with_app by (rewrite !length_take, length_stakes_row; lia).
  rewrite sumZ_app. simpl. lia.
Qed.

(** The winnings are the sum of bet times toss over the steps so far, in 64
    bits. *)
Lemma winnings_as_sum (x : row) (t : nat) :
  (t < length x)%nat ->
  winnings_at x t
  = wrap (sumZ (zip_with Z.mul (take (S t) (stakes_row x)) (take (S t) x))).
Proof.
  induction t as [|t IH]; intros Hlen.
  - destruct (lookup_lt_is_Some_2 x 0 Hlen) as [v Hv].
    rewrite (bet_toss_sum_0 x v Hv). cbn [winnings_at].
    rewrite stake_at_0, (lookup_total_Some _ _ _ Hv). unfold int_mul.
    f_equal. lia.
  - destruct (lookup_lt_is_Some_2 x (S t) Hlen) as [v Hv].
    rewrite (bet_toss_sum_S x t v Hv). cbn [winnings_at].
    rewrite (lookup_total_Some _ _ _ Hv), IH by lia.
    destruct (betting_at x (S t)) eqn:Ebet.
    + unfold int_add, int_mul. by rewrite wrap_add_l, wrap_add_r.
    + rewrite betting_at_S in Ebet. unfold stake_at.
      rewrite (all_losses_false_mono x t (S t)) by (lia || done).
      f_equal. lia.
Qed.

Lemma winnings_as_exact_sum (x : row) (t : nat) :
  Forall (fun v => v = -1 \/ v = 1) x -> (t < length x)%nat -> (t <= 62)%nat ->
  winnings_at x t
  = sumZ (zip_with Z.mul (take (S t) (stakes_row x)) (take (S t) x)).
Proof.
  intros Hx. induction t as [|t IH]; intros Hlen Ht.
  - destruct (lookup_lt_is_Some_2 x 0 Hlen) as [v Hv].
    pose proof (Forall_lookup_1 _ _ _ _ Hx Hv) as Htoss. cbn beta in Htoss.
    rewrite (bet_toss_sum_0 x v Hv). cbn [winnings_at].
    rewrite stake_at_0, (lookup_total_Some _ _ _ Hv).
    destruct Htoss as [-> | ->]; reflexivity.
  - destruct (lookup_lt_is_Some_2 x (S t) Hlen) as [v Hv].
    rewrite (bet_toss_sum_S x t v Hv), <- IH by lia. cbn [winnings_at].
    rewrite (lookup_total_Some _ _ _ Hv).
    destruct (betting_at x (S t)) eqn:Ebet.
    + by apply winnings_step_exact.
    + rewrite betting_at_S in Ebet. unfold stake_at.
      rewrite (all_losses_false_mono x t (S t)) by (lia || done). lia.
Qed.

(** X3: the winnings are the running sum of bet times toss. [W[i, t]] is the
    sum of [B[i, s] * X[i, s]] over the steps [s <= t], reduced to 64 bits;
    up to step 62 of a toss matrix it is that sum itself. *)
Theorem winnings_are_running_sum (n_paths n_steps : Z) (X : matrix) (i t : Z) :
  has_shape X n_paths n_steps -> 0 <= i < n_paths -> 0 <= t < n_steps ->
  exists B W rb x w,
    simulate_martingale_betting_strategy n_paths n_steps X = Ok (X, B, W) /\
    getitem B i = Ok rb /\ getitem X i = Ok x /\ getitem2 W i t = Ok w /\
    w = wrap (sumZ (zip_with Z.mul (slice_to rb (t + 1)) (slice_to x (t + 1)))) /\
    (t <= 62 -> is_toss_matrix X ->
     w = sumZ (zip_with Z.mul (slice_to rb (t + 1)) (slice_to x (t + 1)))).
Proof.
  intros HS Hi Ht.
  destruct (shape_row X n_paths n_steps i HS Hi) as (x & Hx & Lx).
  exists (stakes_row <$> X), (winnings_row <$> X), (stakes_row x), x,
    (winnings_at x (Z.to_nat t)).
  split; [by apply simulate_ok|].
  split; [rewrite <- (Z2Nat.id i) by lia; apply getitem_nat;
          by rewrite list_lookup_fmap, Hx|].
  split; [rewrite <- (Z2Nat.id i) by lia; by apply getitem_nat|].
  split; [apply (cell_winnings X i t x Hx); lia|].
  unfold slice_to. destruct (Z.ltb_spec (t + 1) 0) as [|_]; [lia|].
  replace (Z.to_nat (t + 1)) with (S (Z.to_nat t)) by lia.
  split; [apply winnings_as_sum; lia|].
  intros H62 Htoss. apply winnings_as_exact_sum; [|lia..].
  by eapply (Forall_lookup_1 _ X).
Qed.

Lemma winnings_are_running_sum_witness :
  exists B W rb x w,
    simulate_martingale_betting_strategy 1 4 lose_then_win = Ok (lose_then_win, B, W) /\
    getitem B 0 = Ok rb /\ getitem lose_then_win 0 = Ok x /\ getitem2 W 0 2 = Ok w /\
    w = wrap (sumZ (zip_with Z.mul (slice_to rb (2 + 1)) (slice_to x (2 + 1)))) /\
    (2 <= 62 -> is_toss_matrix lose_then_win ->
     w = sumZ (zip_with Z.mul (slice_to rb (2 + 1)) (slice_to x (2 + 1)))).
Proof.
  apply (winnings_are_running_sum 1 4 lose_then_win 0 2).
  - repeat split; [lia | repeat constructor].
  - lia.
  - lia.
Defined.

Lemma first_win_exists (x : row) (t : nat) :
  Forall (fun v => v = -1 \/ v = 1) x -> (t <= length x)%nat ->
  all_losses x t = false ->
  exists k, (k < t)%nat /\ all_losses x k = true /\ x !! k = Some 1.
Proof.
  intros Hx. induction t as [|t IH]; intros Hlen Hall; [done|].
  destruct (lookup_lt_is_Some_2 x t) as [v Hv]; [lia|].
  rewrite (all_losses_S _ _ _ Hv) in Hall.
  destruct (all_losses x t) eqn:E.
  - exists t. split; [lia|]. split; [done|].
    destruct (Forall_lookup_1 _ _ _ _ Hx Hv) as [-> | ->]; [done|done].
  - destruct IH as (k & Hk & Hk1 & Hk2); [lia|done|].
    exists k. split; [lia|done].
Qed.

Lemma wrap_pow2_big (t : Z) : 64 <= t -> wrap (2 ^ t) = 0.
Proof.
  intros H. replace t with ((t - 64) + 64) by lia.
  rewrite Z.pow_add_r by lia. change (2 ^ 64) with (2 ^ int_bits).
  transitivity (wrap 0); [|reflexivity].
  apply wrap_congr. by rewrite Z_mod_mult.
Qed.

Lemma wrap_one_minus_pow2_big (t : Z) : 64 <= t -> wrap (1 - 2 ^ t) = 1.
Proof.
  intros H. replace t with ((t - 64) + 64) by lia.
  rewrite Z.pow_add_r by lia. change (2 ^ 64) with (2 ^ int_bits).
  transitivity (wrap 1); [|reflexivity].
  apply wrap_congr.
  replace (1 - 2 ^ (t - 64) * 2 ^ int_bits)
    with (1 + (- 2 ^ (t - 64)) * 2 ^ int_bits) by lia.
  apply Z_mod_plus_full.
Qed.

Lemma wrap_one_minus_pow2_small (t : nat) :
  (t <= 63)%nat -> wrap (1 - 2 ^ Z.of_nat t) = 1 - 2 ^ Z.of_nat t.
Proof.
  intros H. apply wrap_id. range_numbers.
  assert (0 < 2 ^ Z.of_nat t) by (apply Z.pow_pos_nonneg; lia).
  assert (2 ^ Z.of_nat t <= 2 ^ 63) by (apply Z.pow_le_mono_r; lia).
  change (2 ^ 63) with 9223372036854775808 in *. lia.
Qed.

Lemma row_all_losses (X : matrix) (i t : Z) (x : row) :
  X !! Z.to_nat i = Some x -> 0 <= i ->
  (forall k, 0 <= k < t -> getitem2 X i k = Ok (-1)) ->
  all_losses x (Z.to_nat t) = true.
Proof.
  intros Hx Hi Hall. apply all_losses_spec. intros k v Hk Hv.
  specialize (Hall (Z.of_nat k) ltac:(lia)).
  apply getitem2_Ok in Hall as (x' & Hx' & Hl); [|lia..].
  rewrite Hx in Hx'. injection Hx' as <-.
  rewrite Nat2Z.id in Hl. congruence.
Qed.

(** X4: on a toss matrix the winnings take one of two values. Once the path
    has won at some step [k <= t] they are exactly 1; while every toss up to
    [t] is a loss they are [1 - 2^(t+1)] (reduced to 64 bits from step 63
    on). *)
Theorem winnings_one_or_all_lost (n_paths n_steps : Z) (X : matrix) (i t : Z) :
  has_shape X n_paths n_steps -> is_toss_matrix X ->
  0 <= i < n_paths -> 0 <= t < n_steps ->
  exists B W w,
    simulate_martingale_betting_strategy n_paths n_steps X = Ok (X, B, W) /\
    getitem2 W i t = Ok w /\
    (w = 1 \/ w = wrap (1 - 2 ^ (t + 1))) /\
    ((exists k, 0 <= k <= t /\ getitem2 X i k = Ok 1) -> w = 1) /\
    ((forall k, 0 <= k <= t -> getitem2 X i k = Ok (-1)) ->
     w = wrap (1 - 2 ^ (t + 1)) /\ (t <= 62 -> w = 1 - 2 ^ (t + 1))).
Proof.
  intros HS Htoss Hi Ht.
  destruct (shape_row X n_paths n_steps i HS Hi) as (x & Hx & Lx).
  assert (Hrow : Forall (fun v => v = -1 \/ v = 1) x)
    by (by eapply (Forall_lookup_1 _ X)).
  exists (stakes_row <$> X), (winnings_row <$> X), (winnings_at x (Z.to_nat t)).
  split; [by apply simulate_ok|].
  split; [apply (cell_winnings X i t x Hx); lia|].
  replace (t + 1) with (Z.of_nat (S (Z.to_nat t))) by lia.
  assert (Hwon : all_losses x (S (Z.to_nat t)) = false ->
                 winnings_at x (Z.to_nat t) = 1).
  { intros Hf.
    destruct (first_win_exists x (S (Z.to_nat t)) Hrow ltac:(lia) Hf)
      as (k & Hk & Hall & Hwin).
    apply (winnings_after_first_win x k); [done..|lia]. }
  split; [|split].
  - destruct (all_losses x (S (Z.to_nat t))) eqn:E; [right|left; by apply Hwon].
    apply winnings_all_losses; [done|lia].
  - intros (k & Hk & Hwin). apply Hwon.
    apply getitem2_Ok in Hwin as (x' & Hx' & Hwin); [|lia..].
    rewrite Hx in Hx'. injection Hx' as <-.
    apply (all_losses_after_win x (Z.to_nat k) _ 1); [done|done|lia].
  - intros Hall.
    assert (E : all_losses x (S (Z.to_nat t)) = true).
    { replace (S (Z.to_nat t)) with (Z.to_nat (t + 1)) by lia.
      apply (row_all_losses X i (t + 1) x Hx); [lia|].
      intros k Hk. apply Hall. lia. }
    rewrite winnings_all_losses by (done || lia).
    split; [done|]. intros H62. apply wrap_one_minus_pow2_small. lia.
Qed.

Lemma winnings_one_or_all_lost_witness :
  exists B W w,
    simulate_martingale_betting_strategy 1 4 lose_then_win = Ok (lose_then_win, B, W) /\
    getitem2 W 0 2 = Ok w /\
    (w = 1 \/ w = wrap (1 - 2 ^ (2 + 1))) /\
    ((exists k, 0 <= k <= 2 /\ getitem2 lose_then_win 0 k = Ok 1) -> w = 1) /\
    ((forall k, 0 <= k <= 2 -> getitem2 lose_then_win 0 k = Ok (-1)) ->
     w = wrap (1 - 2 ^ (2 + 1)) /\ (2 <= 62 -> w = 1 - 2 ^ (2 + 1))).
Proof.
  apply (winnings_one_or_all_lost 1 4 lose_then_win 0 2).
  - repeat split; [lia | repeat constructor].
  - repeat constructor; lia.
  - lia.
  - lia.
Defined.

Lemma long_losing_streak_cell (k : Z) :
  0 <= k < 66 -> getitem2 long_losing_streak 0 k = Ok (-1).
Proof.
  intros Hk. rewrite <- (Z2Nat.id k) by lia.
  apply (getitem2_nat long_losing_streak 0 (Z.to_nat k) (replicate 66 (-1)));
    [reflexivity|].
  apply lookup_replicate_2. lia.
Qed.

(** X5: the values a long losing streak leaves in the arrays. On a path
    that has only lost up to a step [t >= 63], the path is still betting,
    yet the bet recorded is [-2^63] at step 63 and 0 from step 64 on, and
    the winnings recorded are [+1]. (Only the values are modelled, not the
    warnings NumPy issues when an operation overflows.) *)
Theorem losing_streak_overflows (n_paths n_steps : Z) (X : matrix) (i t : Z) :
  has_shape X n_paths n_steps -> 0 <= i < n_paths -> 63 <= t < n_steps ->
  (forall k, 0 <= k <= t -> getitem2 X i k = Ok (-1)) ->
  exists B W s,
    simulate_martingale_betting_strategy n_paths n_steps X = Ok (X, B, W) /\
    state_entering X n_steps i t = Ok s /\ betting s = true /\
    getitem2 W i t = Ok 1 /\
    (t = 63 -> getitem2 B i t = Ok int_min) /\
    (64 <= t -> getitem2 B i t = Ok 0).
Proof.
  intros HS Hi Ht Hall.
  destruct (run_at n_paths n_steps X i t HS Hi ltac:(lia))
    as (x & s & s' & Hx & Lx & Hs & Hbet & _).
  assert (E : all_losses x (S (Z.to_nat t)) = true).
  { replace (S (Z.to_nat t)) with (Z.to_nat (t + 1)) by lia.
    apply (row_all_losses X i (t + 1) x Hx); [lia|].
    intros k Hk. apply Hall. lia. }
  pose proof (all_losses_mono x (Z.to_nat t) (S (Z.to_nat t)) ltac:(lia) E) as E'.
  exists (stakes_row <$> X), (winnings_row <$> X), s.
  split; [by apply simulate_ok|]. split; [done|].
  split; [rewrite Hbet; apply (all_losses_mono x _ (S (Z.to_nat t))); [lia|done]|].
  rewrite (cell_winnings X i t x Hx), (cell_stakes X i t x Hx) by lia.
  rewrite winnings_all_losses by (done || lia).
  unfold stake_at. rewrite E'. split; [|split].
  - f_equal. apply wrap_one_minus_pow2_big. lia.
  - intros ->. reflexivity.
  - intros H64. f_equal. apply wrap_pow2_big. lia.
Qed.

Lemma losing_streak_overflows_witness :
  exists B W s,
    simulate_martingale_betting_strategy 1 66 long_losing_streak
    = Ok (long_losing_streak, B, W) /\
    state_entering long_losing_streak 66 0 64 = Ok s /\ betting s = true /\
    getitem2 W 0 64 = Ok 1 /\
    (64 = 63 -> getitem2 B 0 64 = Ok int_min) /\
    (64 <= 64 -> getitem2 B 0 64 = Ok 0).
Proof.
  apply (losing_streak_overflows 1 66 long_losing_streak 0 64).
  - repeat split; [lia | repeat constructor].
  - lia.
  - lia.
  - intros k Hk. apply long_losing_streak_cell. lia.
Defined.

(** * Further properties of the partial sums *)

Lemma sumZ_take_S (r : row) (t : nat) (v : Z) :
  r !! t = Some v -> sumZ (take (S t) r) = sumZ (take t r) + v.
Proof.
  intros Hv. rewrite (take_S_r _ _ _ Hv), sumZ_app. simpl. lia.
Qed.

Lemma cumsum_toss_sum (r : row) (t : nat) :
  Forall (fun v => v = -1 \/ v = 1) r -> (t < length r)%nat ->
  Z.of_nat (length r) <= int_max ->
  cumsum r !!! t = sumZ (take (S t) r).
Proof.
  intros Hr. induction t as [|t IH]; intros Hlen Hmax.
  - destruct r as [|v r]; [simpl in Hlen; lia|]. change (v = v + 0). lia.
  - destruct (lookup_lt_is_Some_2 r (S t) Hlen) as [v Hv].
    rewrite cumsum_total_S, cumsum_toss_exact by done.
    rewrite IH by (done || lia).
    by rewrite (sumZ_take_S r (S t) v Hv), (lookup_total_Some _ _ _ Hv).
Qed.

Lemma cell_partial_sums (a : ndarray Z) (i t : Z) (x : row) :
  rows_of a !! Z.to_nat i = Some x -> 0 <= i -> 0 <= t < Z.of_nat (length x) ->
  getitem2 (rows_of (build_partial_sums a)) i t = Ok (cumsum x !!! Z.to_nat t).
Proof.
  intros Hx Hi Ht. cbn [build_partial_sums rows_of].
  rewrite <- (Z2Nat.id i), <- (Z2Nat.id t) by lia. rewrite !Nat2Z.id.
  eapply getitem2_nat.
  - by rewrite list_lookup_fmap, Hx.
  - apply list_lookup_lookup_total_lt. rewrite length_cumsum. lia.
Qed.

(** X7: on a toss matrix the partial sum [S[i, t]] is the sum of the tosses
    [X[i, 0..t]], with no reduction, and lies between [-(t+1)] and [t+1]. *)
Theorem partial_sums_closed_form (a : ndarray Z) (i t : Z) :
  wf_ndarray a -> is_toss_matrix (rows_of a) ->
  0 <= i < shape0 a -> 0 <= t < shape1 a ->
  exists x s,
    getitem (rows_of a) i = Ok x /\
    getitem2 (rows_of (build_partial_sums a)) i t = Ok s /\
    s = sumZ (slice_to x (t + 1)) /\
    Z.abs s <= t + 1.
Proof.
  intros (HS & _ & Hmax) Htoss Hi Ht.
  destruct (shape_row _ _ _ i HS Hi) as (x & Hx & Lx).
  assert (Hrow : Forall (fun v => v = -1 \/ v = 1) x)
    by (by eapply (Forall_lookup_1 _ (rows_of a))).
  exists x, (cumsum x !!! Z.to_nat t).
  split; [rewrite <- (Z2Nat.id i) by lia; by apply getitem_nat|].
  split; [apply cell_partial_sums; [done|lia..]|].
  unfold slice_to. destruct (Z.ltb_spec (t + 1) 0) as [|_]; [lia|].
  replace (Z.to_nat (t + 1)) with (S (Z.to_nat t)) by lia.
  split; [apply cumsum_toss_sum; [done|lia..]|].
  pose proof (cumsum_toss_bound x (Z.to_nat t) Hrow ltac:(lia) ltac:(lia)). lia.
Qed.

Lemma partial_sums_closed_form_witness :
  exists x s,
    getitem (rows_of three_paths) 2 = Ok x /\
    getitem2 (rows_of (build_partial_sums three_paths)) 2 2 = Ok s /\
    s = sumZ (slice_to x (2 + 1)) /\
    Z.abs s <= 2 + 1.
Proof.
  apply (partial_sums_closed_form three_paths 2 2).
  - exact three_paths_wf.
  - repeat constructor; lia.
  - change (0 <= 2 < 3). lia.
  - change (0 <= 2 < 3). lia.
Defined.

Lemma take_cumsum_from (acc : Z) (r : row) (n : nat) :
  take n (cumsum_from acc r) = cumsum_from acc (take n r).
Proof.
  revert acc n. induction r as [|v r IH]; intros acc n; [by destruct n|].
  destruct n as [|n]; [done|]. cbn. by rewrite IH.
Qed.

Lemma take_cumsum (r : row) (n : nat) : take n (cumsum r) = cumsum (take n r).
Proof.
  destruct r as [|v r]; [by destruct n|].
  destruct n as [|n]; [done|]. cbn. by rewrite take_cumsum_from.
Qed.

Lemma cumsum_prefix (x y : row) (t : nat) :
  take (S t) x = take (S t) y -> cumsum x !! t = cumsum y !! t.
Proof.
  intros H.
  rewrite <- (lookup_take_lt (cumsum x) (S t) t), <- (lookup_take_lt (cumsum y) (S t) t)
    by lia.
  by rewrite !take_cumsum, H.
Qed.

(** X8: a partial sum depends on the tosses up to its own step only. Two
    rows, of the same array or of different ones, that agree on steps
    [0..t] have the same partial sum at step [t]. *)
Theorem partial_sums_depend_on_past (a a' : ndarray Z) (i j t : Z) (x y : row) :
  wf_ndarray a -> wf_ndarray a' ->
  0 <= i -> 0 <= j -> 0 <= t < shape1 a -> t < shape1 a' ->
  getitem (rows_of a) i = Ok x -> getitem (rows_of a') j = Ok y ->
  slice_to x (t + 1) = slice_to y (t + 1) ->
  exists s,
    getitem2 (rows_of (build_partial_sums a)) i t = Ok s /\
    getitem2 (rows_of (build_partial_sums a')) j t = Ok s.
Proof.
  intros (HS & _) (HS' & _) Hi Hj Ht Ht' Hx Hy Heq.
  apply getitem_Ok in Hx, Hy; [|done..].
  pose proof (has_shape_row _ _ _ _ _ HS Hx) as Lx.
  pose proof (has_shape_row _ _ _ _ _ HS' Hy) as Ly.
  exists (cumsum x !!! Z.to_nat t).
  split; [apply cell_partial_sums; [done|lia..]|].
  rewrite (cell_partial_sums a' j t y Hy) by lia.
  f_equal. apply list_lookup_total_correct.
  unfold slice_to in Heq. destruct (Z.ltb_spec (t + 1) 0) as [|_]; [lia|].
  replace (Z.to_nat (t + 1)) with (S (Z.to_nat t)) in Heq by lia.
  rewrite <- (cumsum_prefix x y _ Heq).
  apply list_lookup_lookup_total_lt. rewrite length_cumsum. lia.
Qed.

Lemma partial_sums_depend_on_past_witness :
  exists s,
    getitem2 (rows_of (build_partial_sums three_paths)) 0 1 = Ok s /\
    getitem2 (rows_of (build_partial_sums three_paths)) 1 1 = Ok s.
Proof.
  apply (partial_sums_depend_on_past three_paths three_paths 0 1 1 [1; 1; -1] [1; 1; 1]).
  - exact three_paths_wf.
  - exact three_paths_wf.
  - lia.
  - lia.
  - change (0 <= 1 < 3). lia.
  - change (1 < 3). lia.
  - reflexivity.
  - reflexivity.
  - reflexivity.
Defined.

(** * Further properties of the estimators *)

Lemma build_partial_sums_wf (a : ndarray Z) :
  wf_ndarray a -> wf_ndarray (build_partial_sums a).
Proof. intros (HS & H0 & H1). split; [by apply cumsum_has_shape | done]. Qed.

(** What each estimator returns for a valid [t], in terms of [group_by]. *)
Lemma history_estimator_groups {F} (np_mean : list Z -> F) (a : ndarray Z) (t : Z) :
  wf_ndarray a -> 0 <= t < shape1 a - 1 ->
  exists groups,
    history_groups a t = Ok groups /\
    estimate_conditional_expectation np_mean a t = Ok (np_mean <$> groups) /\
    (forall k vs, groups !! k = Some vs <->
       vs <> [] /\
       vs = next_value t <$> group_members (history_key t) k (rows_of a)) /\
    group_total groups = length (rows_of a) /\
    (forall k, is_Some ((np_mean <$> groups) !! k) <->
       exists path, path ∈ rows_of a /\ history_key t path = k).
Proof.
  intros Hwf Ht.
  assert (Htest : negb ((0 <=? t) && (t <? shape1 a - 1)) = false)
    by (apply valid_t_test; lia).
  unfold estimate_conditional_expectation.
  rewrite Htest, history_groups_ok by done. cbn [bind].
  destruct (group_by_spec (history_key t) (next_value t) (rows_of a))
    as (Hl & Htot & Hdom & _).
  eexists. split; [reflexivity|]. split; [reflexivity|].
  split; [exact Hl|]. split; [exact Htot|].
  intros k. rewrite lookup_fmap, fmap_is_Some. apply Hdom.
Qed.

Lemma sum_estimator_groups {F} (np_mean : list Z -> F) (a : ndarray Z) (t : Z) :
  wf_ndarray a -> 0 <= t < shape1 a - 1 ->
  exists groups,
    sum_groups a t = Ok groups /\
    estimate_conditional_expectation_sums np_mean a t = Ok (np_mean <$> groups) /\
    (forall k vs, groups !! k = Some vs <->
       vs <> [] /\
       vs = next_value t <$> group_members (sum_key t) k (rows_of a)) /\
    group_total groups = length (rows_of a) /\
    (forall k, is_Some ((np_mean <$> groups) !! k) <->
       exists S, S ∈ rows_of a /\ sum_key t S = k).
Proof.
  intros Hwf Ht.
  assert (Htest : negb ((0 <=? t) && (t <? shape1 a - 1)) = false)
    by (apply valid_t_test; lia).
  unfold estimate_conditional_expectation_sums.
  rewrite Htest, sum_groups_ok by done. cbn [bind].
  destruct (group_by_spec (sum_key t) (next_value t) (rows_of a))
    as (Hl & Htot & Hdom & _).
  eexists. split; [reflexivity|]. split; [reflexivity|].
  split; [exact Hl|]. split; [exact Htot|].
  intros k. rewrite lookup_fmap, fmap_is_Some. apply Hdom.
Qed.

Lemma length_le_sum_list_with {A} (f : A -> nat) (l : list A) :
  Forall (fun a => (1 <= f a)%nat) l -> (length l <= sum_list_with f l)%nat.
Proof. induction 1 as [|a l Ha _ IH]; simpl; lia. Qed.

Section GroupingSize.
Context `{Countable K}.
Implicit Types (key : row -> K) (val : row -> Z).

Lemma group_by_size key val (rows : list row) :
  (size (group_by key val rows ∅) <= length rows)%nat.
Proof.
  destruct (group_by_spec key val rows) as (Hl & Htot & _).
  rewrite <- Htot, <- length_map_to_list. unfold group_total.
  apply length_le_sum_list_with, Forall_forall. intros [k vs] Hin.
  apply elem_of_map_to_list, Hl in Hin as [Hne _].
  cbn. destruct vs; [done | simpl; lia].
Qed.

Lemma group_by_empty_iff key val (rows : list row) :
  group_by key val rows ∅ = ∅ <-> rows = [].
Proof.
  split; [|by intros ->].
  intros He. destruct (group_by_spec key val rows) as (_ & Htot & _).
  rewrite He, group_total_empty in Htot. by destruct rows.
Qed.

Lemma group_by_Permutation key val (rows rows' : list row) (k : K) :
  rows ≡ₚ rows' ->
  option_Forall2 (≡ₚ) (group_by key val rows ∅ !! k) (group_by key val rows' ∅ !! k).
Proof.
  intros Hp. rewrite !group_by_lookup, !lookup_empty. cbn [default app].
  assert (Hl : val <$> group_members key k rows ≡ₚ val <$> group_members key k rows')
    by (unfold group_members; by rewrite Hp).
  destruct (val <$> group_members key k rows) as [|v l],
           (val <$> group_members key k rows') as [|v' l'].
  - constructor.
  - by apply Permutation_nil_cons in Hl.
  - symmetry in Hl. by apply Permutation_nil_cons in Hl.
  - by constructor.
Qed.

End GroupingSize.

(** X9: the two functions composed. Grouping the partial sums of a toss
    matrix at step [t], every key is a sum between [-(t+1)] and [t+1], and
    every next value in its group is the key plus or minus one. *)
Theorem sums_move_by_one {F} (np_mean : list Z -> F) (a : ndarray Z) (t : Z) :
  wf_ndarray a -> is_toss_matrix (rows_of a) -> 0 <= t < shape1 a - 1 ->
  exists groups,
    sum_groups (build_partial_sums a) t = Ok groups /\
    estimate_conditional_expectation_sums np_mean (build_partial_sums a) t
    = Ok (np_mean <$> groups) /\
    forall k vs v, groups !! k = Some vs -> v ∈ vs ->
      Z.abs k <= t + 1 /\ (v = k - 1 \/ v = k + 1).
Proof.
  intros Hwf Htoss Ht.
  pose proof (build_partial_sums_wf a Hwf) as Hwf'.
  destruct (sum_estimator_groups np_mean (build_partial_sums a) t Hwf' Ht)
    as (groups & Hg & Hest & Hl & _).
  exists groups. split; [done|]. split; [done|].
  intros k vs v Hk Hv. apply Hl in Hk as [_ ->].
  apply list_elem_of_fmap in Hv as (S & -> & HS).
  apply list_elem_of_filter in HS as [<- HS].
  cbn [build_partial_sums rows_of] in HS.
  apply list_elem_of_fmap in HS as (x & -> & Hx).
  destruct Hwf as ((_ & _ & HR) & _ & Hmax).
  pose proof (proj1 (Forall_forall _ _) HR x Hx) as Lx. cbn in Lx.
  pose proof (proj1 (Forall_forall _ _) Htoss x Hx) as Hrow.
  unfold sum_key, next_value.
  replace (Z.to_nat (t + 1)) with (S (Z.to_nat t)) by lia.
  pose proof (cumsum_toss_bound x (Z.to_nat t) Hrow ltac:(lia) ltac:(lia)) as Hb.
  split; [lia|].
  rewrite cumsum_total_S, cumsum_toss_exact by (done || lia).
  destruct (lookup_lt_is_Some_2 x (S (Z.to_nat t))) as [v Hv]; [lia|].
  rewrite (lookup_total_Some _ _ _ Hv).
  destruct (Forall_lookup_1 _ _ _ _ Hrow Hv) as [-> | ->]; lia.
Qed.

Lemma sums_move_by_one_witness :
  exists groups,
    sum_groups (build_partial_sums three_paths) 1 = Ok groups /\
    estimate_conditional_expectation_sums np_mean_f64 (build_partial_sums three_paths) 1
    = Ok (np_mean_f64 <$> groups) /\
    forall k vs v, groups !! k = Some vs -> v ∈ vs ->
      Z.abs k <= 1 + 1 /\ (v = k - 1 \/ v = k + 1).
Proof.
  apply (sums_move_by_one np_mean_f64 three_paths 1).
  - exact three_paths_wf.
  - repeat constructor; lia.
  - change (0 <= 1 < 3 - 1). lia.
Defined.

(** X11: each estimator returns at most one entry per path, and an empty map
    exactly when the array has no paths. *)
Theorem estimates_bounded_by_paths {F} (np_mean : list Z -> F) (a : ndarray Z) (t : Z) :
  wf_ndarray a -> 0 <= t < shape1 a - 1 ->
  exists m m',
    estimate_conditional_expectation np_mean a t = Ok m /\
    estimate_conditional_expectation_sums np_mean a t = Ok m' /\
    Z.of_nat (size m) <= shape0 a /\ Z.of_nat (size m') <= shape0 a /\
    (m = ∅ <-> shape0 a = 0) /\ (m' = ∅ <-> shape0 a = 0).
Proof.
  intros Hwf Ht.
  assert (Htest : negb ((0 <=? t) && (t <? shape1 a - 1)) = false)
    by (apply valid_t_test; lia).
  unfold estimate_conditional_expectation, estimate_conditional_expectation_sums.
  rewrite Htest, history_groups_ok, sum_groups_ok by done. cbn [bind].
  destruct Hwf as ((HP & _) & _).
  eexists _, _. split; [reflexivity|]. split; [reflexivity|].
  rewrite !map_size_fmap, !fmap_empty_iff, !group_by_empty_iff.
  pose proof (group_by_size (history_key t) (next_value t) (rows_of a)).
  pose proof (group_by_size (sum_key t) (next_value t) (rows_of a)).
  assert (Hnil : rows_of a = [] <-> shape0 a = 0).
  { rewrite <- HP. destruct (rows_of a); simpl; split; (done || lia). }
  repeat split; try lia; apply Hnil.
Qed.

Lemma estimates_bounded_by_paths_witness :
  exists m m',
    estimate_conditional_expectation np_mean_f64 three_paths 1 = Ok m /\
    estimate_conditional_expectation_sums np_mean_f64 three_paths 1 = Ok m' /\
    Z.of_nat (size m) <= shape0 three_paths /\
    Z.of_nat (size m') <= shape0 three_paths /\
    (m = ∅ <-> shape0 three_paths = 0) /\ (m' = ∅ <-> shape0 three_paths = 0).
Proof.
  apply (estimates_bounded_by_paths np_mean_f64 three_paths 1).
  - exact three_paths_wf.
  - change (0 <= 1 < 3 - 1). lia.
Defined.

Lemma option_Forall2_is_Some {A} (R : relation A) (x y : option A) :
  option_Forall2 R x y -> (is_Some x <-> is_Some y).
Proof. intros [u v _|]; split; intros [w Hw]; (done || eauto). Qed.

(** X12: the order of the paths does not matter to the grouping. Two arrays
    with the same rows in a different order give, for either estimator, the
    same keys, and under each key the same values up to their order; so the
    two returned maps have the same keys. (The estimate under a key is the
    mean of the values in the order of the paths.) *)
Theorem grouping_ignores_path_order {F} (np_mean : list Z -> F)
    (a a' : ndarray Z) (t : Z) :
  wf_ndarray a -> wf_ndarray a' -> shape1 a = shape1 a' ->
  rows_of a ≡ₚ rows_of a' -> 0 <= t < shape1 a - 1 ->
  exists g g' h h',
    history_groups a t = Ok g /\ history_groups a' t = Ok g' /\
    sum_groups a t = Ok h /\ sum_groups a' t = Ok h' /\
    (forall k, option_Forall2 (≡ₚ) (g !! k) (g' !! k)) /\
    (forall k, option_Forall2 (≡ₚ) (h !! k) (h' !! k)) /\
    estimate_conditional_expectation np_mean a t = Ok (np_mean <$> g) /\
    estimate_conditional_expectation np_mean a' t = Ok (np_mean <$> g') /\
    estimate_conditional_expectation_sums np_mean a t = Ok (np_mean <$> h) /\
    estimate_conditional_expectation_sums np_mean a' t = Ok (np_mean <$> h') /\
    (forall k, is_Some ((np_mean <$> g) !! k) <-> is_Some ((np_mean <$> g') !! k)) /\
    (forall k, is_Some ((np_mean <$> h) !! k) <-> is_Some ((np_mean <$> h') !! k)).
Proof.
  intros Hwf Hwf' Hs Hp Ht.
  assert (Htest : negb ((0 <=? t) && (t <? shape1 a - 1)) = false)
    by (apply valid_t_test; lia).
  unfold estimate_conditional_expectation, estimate_conditional_expectation_sums.
  rewrite <- Hs, Htest.
  rewrite (history_groups_ok a), (history_groups_ok a'),
    (sum_groups_ok a), (sum_groups_ok a') by (done || lia).
  cbn [bind].
  pose proof (fun k => group_by_Permutation (history_key t) (next_value t) _ _ k Hp) as Hg.
  pose proof (fun k => group_by_Permutation (sum_key t) (next_value t) _ _ k Hp) as Hh.
  eexists _, _, _, _. do 4 (split; [reflexivity|]).
  split; [exact Hg|]. split; [exact Hh|].
  do 4 (split; [reflexivity|]).
  split; intros k; rewrite !lookup_fmap, !fmap_is_Some;
    eapply option_Forall2_is_Some; [apply Hg | apply Hh].
Qed.

Lemma grouping_ignores_path_order_witness :
  exists g g' h h',
    history_groups three_paths 1 = Ok g /\
    history_groups (NdArray 3 3 [[1; -1; 1]; [1; 1; -1]; [1; 1; 1]]) 1 = Ok g' /\
    sum_groups three_paths 1 = Ok h /\
    sum_groups (NdArray 3 3 [[1; -1; 1]; [1; 1; -1]; [1; 1; 1]]) 1 = Ok h' /\
    (forall k, option_Forall2 (≡ₚ) (g !! k) (g' !! k)) /\
    (forall k, option_Forall2 (≡ₚ) (h !! k) (h' !! k)) /\
    estimate_conditional_expectation np_mean_f64 three_paths 1
    = Ok (np_mean_f64 <$> g) /\
    estimate_conditional_expectation np_mean_f64
      (NdArray 3 3 [[1; -1; 1]; [1; 1; -1]; [1; 1; 1]]) 1
    = Ok (np_mean_f64 <$> g') /\
    estimate_conditional_expectation_sums np_mean_f64 three_paths 1
    = Ok (np_mean_f64 <$> h) /\
    estimate_conditional_expectation_sums np_mean_f64
      (NdArray 3 3 [[1; -1; 1]; [1; 1; -1]; [1; 1; 1]]) 1
    = Ok (np_mean_f64 <$> h') /\
    (forall k, is_Some ((np_mean_f64 <$> g) !! k)
               <-> is_Some ((np_mean_f64 <$> g') !! k)) /\
    (forall k, is_Some ((np_mean_f64 <$> h) !! k)
               <-> is_Some ((np_mean_f64 <$> h') !! k)).
Proof.
  apply (grouping_ignores_path_order np_mean_f64 three_paths
           (NdArray 3 3 [[1; -1; 1]; [1; 1; -1]; [1; 1; 1]]) 1).
  - exact three_paths_wf.
  - split; [|split]; [|vm_compute; discriminate..].
    split; [reflexivity|]. split; [vm_compute; discriminate|].
    repeat constructor.
  - reflexivity.
  - cbn [rows_of three_paths].
    apply (Permutation_cons_app [[1; -1; 1]] [[1; 1; 1]] [1; 1; -1]).
    apply (Permutation_cons_app [[1; -1; 1]] [] [1; 1; 1]). reflexivity.
  - change (0 <= 1 < 3 - 1). lia.
Defined.

Lemma length_toss_lists (n : nat) : Z.of_nat (length (toss_lists n)) = 2 ^ Z.of_nat n.
Proof.
  induction n as [|n IH]; [reflexivity|].
  cbn [toss_lists]. rewrite length_app, !length_fmap, pow2_succ. lia.
Qed.

Lemma toss_lists_complete (l : list Z) :
  Forall (fun v => v = -1 \/ v = 1) l -> l ∈ toss_lists (length l).
Proof.
  induction 1 as [|v l Hv _ IH]; [by left|].
  cbn [length toss_lists]. apply elem_of_app.
  destruct Hv as [-> | ->]; [left|right]; apply list_elem_of_fmap; eauto.
Qed.

Lemma length_reachable_sums (n : nat) : length (reachable_sums n) = S n.
Proof. unfold reachable_sums. by rewrite length_fmap, length_seq. Qed.

Lemma size_le_keys `{Countable K} {A} (m : gmap K A) (L : list K) :
  (forall k, is_Some (m !! k) -> k ∈ L) -> (size m <= length L)%nat.
Proof.
  intros Hin. rewrite <- length_map_to_list, <- (length_fmap fst).
  apply submseteq_length, NoDup_submseteq; [apply NoDup_fst_map_to_list|].
  intros k Hk. apply list_elem_of_fmap in Hk as ([k' v] & -> & Hkv).
  apply Hin. exists v. by apply elem_of_map_to_list.
Qed.

(** X10: the keys of the history estimator are histories. Every key has
    length [t + 1]; on a toss matrix it is a list of tosses, so there are at
    most [2^(t+1)] entries, however many paths there are. *)
Theorem history_keys_bounded {F} (np_mean : list Z -> F) (a : ndarray Z) (t : Z) :
  wf_ndarray a -> 0 <= t < shape1 a - 1 ->
  exists m,
    estimate_conditional_expectation np_mean a t = Ok m /\
    (forall k, is_Some (m !! k) -> Z.of_nat (length k) = t + 1) /\
    (is_toss_matrix (rows_of a) ->
     (forall k, is_Some (m !! k) -> Forall (fun v => v = -1 \/ v = 1) k) /\
     Z.of_nat (size m) <= 2 ^ (t + 1)).
Proof.
  intros Hwf Ht.
  destruct (history_estimator_groups np_mean a t Hwf Ht)
    as (groups & _ & Hest & _ & _ & Hdom).
  destruct Hwf as ((_ & _ & HR) & _).
  exists (np_mean <$> groups). split; [done|].
  assert (Hlen : forall k, is_Some ((np_mean <$> groups) !! k) ->
                   length k = Z.to_nat (t + 1)).
  { intros k Hk. apply Hdom in Hk as (p & Hp & <-).
    pose proof (proj1 (Forall_forall _ _) HR p Hp) as Lp. cbn in Lp.
    unfold history_key, slice_to.
    destruct (Z.ltb_spec (t + 1) 0) as [|_]; [lia|].
    rewrite length_take. lia. }
  split; [intros k Hk; rewrite (Hlen k Hk); lia|].
  intros Htoss.
  assert (Hk : forall k, is_Some ((np_mean <$> groups) !! k) ->
                 Forall (fun v => v = -1 \/ v = 1) k).
  { intros k Hk. apply Hdom in Hk as (p & Hp & <-).
    pose proof (proj1 (Forall_forall _ _) Htoss p Hp) as Hrow.
    unfold history_key, slice_to.
    destruct (Z.ltb_spec (t + 1) 0) as [|_]; [lia|].
    by apply Forall_take. }
  split; [exact Hk|].
  pose proof (size_le_keys (np_mean <$> groups) (toss_lists (Z.to_nat (t + 1)))) as Hsz.
  pose proof (length_toss_lists (Z.to_nat (t + 1))) as Hl.
  rewrite Z2Nat.id in Hl by lia.
  assert ((size (np_mean <$> groups) <= length (toss_lists (Z.to_nat (t + 1))))%nat); [|lia].
  apply Hsz. intros k Hsome. rewrite <- (Hlen k Hsome).
  apply toss_lists_complete, Hk, Hsome.
Qed.

Lemma history_keys_bounded_witness :
  exists m,
    estimate_conditional_expectation np_mean_f64 three_paths 1 = Ok m /\
    (forall k, is_Some (m !! k) -> Z.of_nat (length k) = 1 + 1) /\
    (is_toss_matrix (rows_of three_paths) ->
     (forall k, is_Some (m !! k) -> Forall (fun v => v = -1 \/ v = 1) k) /\
     Z.of_nat (size m) <= 2 ^ (1 + 1)).
Proof.
  apply (history_keys_bounded np_mean_f64 three_paths 1).
  - exact three_paths_wf.
  - change (0 <= 1 < 3 - 1). lia.
Defined.

Lemma cumsum_toss_losses (r : row) (t : nat) :
  Forall (fun v => v = -1 \/ v = 1) r -> (t < length r)%nat ->
  Z.of_nat (length r) <= int_max ->
  exists j, (j <= S t)%nat /\ cumsum r !!! t = Z.of_nat (S t) - 2 * Z.of_nat j.
Proof.
  intros Hr. induction t as [|t IH]; intros Hlen Hmax.
  - destruct (lookup_lt_is_Some_2 r 0 Hlen) as [v Hv].
    rewrite (list_lookup_total_correct (cumsum r) 0 v) by (by rewrite cumsum_lookup_0).
    destruct (Forall_lookup_1 _ _ _ _ Hr Hv) as [-> | ->];
      [exists 1%nat | exists 0%nat]; split; (lia || reflexivity).
  - destruct (lookup_lt_is_Some_2 r (S t) Hlen) as [v Hv].
    destruct IH as (j & Hj & Hs); [lia|done|].
    rewrite cumsum_total_S, cumsum_toss_exact, Hs, (lookup_total_Some _ _ _ Hv)
      by done.
    destruct (Forall_lookup_1 _ _ _ _ Hr Hv) as [-> | ->];
      [exists (S j) | exists j]; split; lia.
Qed.

(** X13: grouping the partial sums of a toss matrix at step [t], every key is
    [t + 1 - 2 * j] for some number [j <= t + 1] of losses, so the map has at
    most [t + 2] entries. *)
Theorem sum_keys_bounded {F} (np_mean : list Z -> F) (a : ndarray Z) (t : Z) :
  wf_ndarray a -> is_toss_matrix (rows_of a) -> 0 <= t < shape1 a - 1 ->
  exists m,
    estimate_conditional_expectation_sums np_mean (build_partial_sums a) t = Ok m /\
    (forall k, is_Some (m !! k) -> exists j, 0 <= j <= t + 1 /\ k = t + 1 - 2 * j) /\
    Z.of_nat (size m) <= t + 2.
Proof.
  intros Hwf Htoss Ht.
  pose proof (build_partial_sums_wf a Hwf) as Hwf'.
  destruct (sum_estimator_groups np_mean (build_partial_sums a) t Hwf' Ht)
    as (groups & _ & Hest & _ & _ & Hdom).
  destruct Hwf as ((_ & _ & HR) & _ & Hmax).
  exists (np_mean <$> groups). split; [done|].
  assert (Hk : forall k, is_Some ((np_mean <$> groups) !! k) ->
                 exists j, (j <= S (Z.to_nat t))%nat /\
                           k = Z.of_nat (S (Z.to_nat t)) - 2 * Z.of_nat j).
  { intros k Hsome. apply Hdom in Hsome as (S & HS & <-).
    cbn [build_partial_sums rows_of] in HS.
    apply list_elem_of_fmap in HS as (x & -> & Hx).
    pose proof (proj1 (Forall_forall _ _) HR x Hx) as Lx. cbn in Lx.
    pose proof (proj1 (Forall_forall _ _) Htoss x Hx) as Hrow.
    unfold sum_key. apply cumsum_toss_losses; [done|lia..]. }
  split.
  - intros k Hsome. destruct (Hk k Hsome) as (j & Hj & ->).
    exists (Z.of_nat j). lia.
  - pose proof (size_le_keys (np_mean <$> groups) (reachable_sums (S (Z.to_nat t)))) as Hsz.
    rewrite length_reachable_sums in Hsz.
    assert ((size (np_mean <$> groups) <= S (S (Z.to_nat t)))%nat); [|lia].
    apply Hsz. intros k Hsome. destruct (Hk k Hsome) as (j & Hj & ->).
    apply list_elem_of_fmap. exists j. split; [done|].
    apply elem_of_seq. lia.
Qed.

Lemma sum_keys_bounded_witness :
  exists m,
    estimate_conditional_expectation_sums np_mean_f64 (build_partial_sums three_paths) 1
    = Ok m /\
    (forall k, is_Some (m !! k) -> exists j, 0 <= j <= 1 + 1 /\ k = 1 + 1 - 2 * j) /\
    Z.of_nat (size m) <= 1 + 2.
Proof.
  apply (sum_keys_bounded np_mean_f64 three_paths 1).
  - exact three_paths_wf.
  - repeat constructor; lia.
  - change (0 <= 1 < 3 - 1). lia.
Defined.

(** * Further properties of the checker *)

From Stdlib Require Import FloatAxioms.

Lemma ltb_abs_not_positive (d tol : float) :
  PrimFloat.ltb PrimFloat.zero tol = false ->
  PrimFloat.ltb (PrimFloat.abs d) tol = false.
Proof.
  rewrite !ltb_spec, abs_spec.
  replace (Prim2SF PrimFloat.zero) with (S754_zero false) by (vm_compute; reflexivity).
  destruct (Prim2SF d) as [s|s| |s m e], (Prim2SF tol) as [s'|s'| |s' m' e'];
    cbn; try done; destruct s'; done.
Qed.

Lemma ltb_nan_l (tol : float) : PrimFloat.ltb PrimFloat.nan tol = false.
Proof.
  rewrite ltb_spec.
  replace (Prim2SF PrimFloat.nan) with S754_nan by (vm_compute; reflexivity).
  reflexivity.
Qed.

(** The result of the checker, entry by entry. *)
Lemma check_result_entries {E} (np_mean : list E -> float)
    (process : ndarray E) (tol : float) :
  wf_ndarray process ->
  exists diffs,
    check_martingale_property_by_time np_mean process tol = Ok diffs /\
    (1 <= shape1 process -> Z.of_nat (length diffs) = shape1 process - 1) /\
    (shape1 process <= 1 -> diffs = []) /\
    forall t, 0 <= t < shape1 process - 1 ->
      exists c c',
        column (rows_of process) t = Ok c /\
        column (rows_of process) (t + 1) = Ok c' /\
        diffs !! Z.to_nat t
        = Some (PrimFloat.ltb
                  (PrimFloat.abs (PrimFloat.sub (np_mean c') (np_mean c))) tol).
Proof.
  intros Hwf. unfold check_martingale_property_by_time.
  destruct (Z.le_gt_cases 1 (shape1 process)) as [Hge|Hlt].
  - destruct (check_loop_ok np_mean process tol (Z.to_nat (shape1 process - 1)) Hwf)
      as (diffs & Hrun & Hlen & Hent); [lia|].
    rewrite Z2Nat.id in Hrun by lia.
    exists diffs. split; [done|]. split; [lia|]. split.
    { intros Hle. destruct diffs; [done | simpl in Hlen; lia]. }
    intros t Ht. destruct (Hent (Z.to_nat t) ltac:(lia)) as (c & c' & Hc & Hc' & Hl).
    rewrite Z2Nat.id in Hc, Hc' by lia. eauto.
  - rewrite py_range_neg by lia. exists []. split; [reflexivity|].
    split; [lia|]. split; [done|]. intros t Ht. lia.
Qed.

Lemma all_entries (P : bool -> Prop) (diffs : list bool) (n : Z) :
  (1 <= n -> Z.of_nat (length diffs) = n - 1) -> (n <= 1 -> diffs = []) ->
  (forall t, 0 <= t < n - 1 -> exists b, diffs !! Z.to_nat t = Some b /\ P b) ->
  Forall P diffs.
Proof.
  intros Hlen Hnil Hent. apply Forall_lookup. intros k b Hk.
  destruct (Z.le_gt_cases n 1) as [Hle|Hgt]; [by rewrite (Hnil Hle) in Hk|].
  pose proof (lookup_lt_Some _ _ _ Hk) as Hlt.
  destruct (Hent (Z.of_nat k) ltac:(lia)) as (b' & Hb' & HP).
  rewrite Nat2Z.id in Hb'. congruence.
Qed.

(** X14: the comparison is strict. With a tolerance that is not positive
    (zero, negative or NaN) the checker answers [False] at every step,
    whatever the process and its means. *)
Theorem no_step_passes_without_tolerance {E} (np_mean : list E -> float)
    (process : ndarray E) (tol : float) :
  wf_ndarray process ->
  PrimFloat.ltb PrimFloat.zero tol = false ->
  exists diffs,
    check_martingale_property_by_time np_mean process tol = Ok diffs /\
    Forall (fun b => b = false) diffs.
Proof.
  intros Hwf Htol.
  destruct (check_result_entries np_mean process tol Hwf)
    as (diffs & Hrun & Hlen & Hnil & Hent).
  exists diffs. split; [done|].
  apply (all_entries _ diffs (shape1 process) Hlen Hnil).
  intros t Ht. destruct (Hent t Ht) as (c & c' & _ & _ & Hl).
  eexists. split; [exact Hl|]. by apply ltb_abs_not_positive.
Qed.

Lemma no_step_passes_without_tolerance_witness :
  exists diffs,
    check_martingale_property_by_time np_mean_f64 three_paths PrimFloat.zero = Ok diffs /\
    Forall (fun b => b = false) diffs.
Proof.
  apply (no_step_passes_without_tolerance np_mean_f64 three_paths PrimFloat.zero).
  - exact three_paths_wf.
  - reflexivity.
Defined.

Lemma column_no_rows {E} (process : ndarray E) (t : Z) (c : list E) :
  wf_ndarray process -> shape0 process = 0 ->
  column (rows_of process) t = Ok c -> c = [].
Proof.
  intros ((HP & _) & _) H0. rewrite H0 in HP.
  destruct (rows_of process); [|simpl in HP; lia]. by intros [= <-].
Qed.

(** X15: a process without paths never passes. When the array has no rows,
    every column is empty, and as [np.mean] of an empty column is NaN the
    checker answers [False] at every step, whatever the tolerance. *)
Theorem no_step_passes_without_paths {E} (np_mean : list E -> float)
    (process : ndarray E) (tol : float) :
  wf_ndarray process -> shape0 process = 0 ->
  np_mean [] = PrimFloat.nan ->
  exists diffs,
    check_martingale_property_by_time np_mean process tol = Ok diffs /\
    Forall (fun b => b = false) diffs.
Proof.
  intros Hwf H0 Hnan.
  destruct (check_result_entries np_mean process tol Hwf)
    as (diffs & Hrun & Hlen & Hnil & Hent).
  exists diffs. split; [done|].
  apply (all_entries _ diffs (shape1 process) Hlen Hnil).
  intros t Ht. destruct (Hent t Ht) as (c & c' & Hc & Hc' & Hl).
  rewrite (column_no_rows process _ c Hwf H0 Hc) in Hl.
  rewrite (column_no_rows process _ c' Hwf H0 Hc') in Hl.
  eexists. split; [exact Hl|]. rewrite Hnan.
  replace (PrimFloat.abs (PrimFloat.sub PrimFloat.nan PrimFloat.nan))
    with PrimFloat.nan by (vm_compute; reflexivity).
  apply ltb_nan_l.
Qed.

Lemma no_paths_wf : wf_ndarray no_paths.
Proof.
  split; [|split]; [|vm_compute; discriminate..].
  split; [reflexivity|]. split; [vm_compute; discriminate|]. constructor.
Defined.

Lemma no_step_passes_without_paths_witness :
  exists diffs,
    check_martingale_property_by_time np_mean_f64 no_paths default_tol = Ok diffs /\
    Forall (fun b => b = false) diffs.
Proof.
  apply (no_step_passes_without_paths np_mean_f64 no_paths default_tol).
  - exact no_paths_wf.
  - reflexivity.
  - vm_compute. reflexivity.
Defined.

(** * The simulator and the estimator composed *)

Lemma winnings_row_total (x : row) (t : nat) :
  (t < length x)%nat -> winnings_row x !!! t = winnings_at x t.
Proof. intros H. by apply list_lookup_total_correct, winnings_row_lookup. Qed.

Lemma winnings_toss_cases (x : row) (t : nat) :
  Forall (fun v => v = -1 \/ v = 1) x -> (t < length x)%nat ->
  (all_losses x (S t) = false /\ winnings_at x t = 1) \/
  (all_losses x (S t) = true /\ winnings_at x t = wrap (1 - 2 ^ Z.of_nat (S t))).
Proof.
  intros Hx Hlen. destruct (all_losses x (S t)) eqn:E; [right|left].
  - split; [done|]. by apply winnings_all_losses.
  - split; [done|].
    destruct (first_win_exists x (S t) Hx ltac:(lia) E) as (k & Hk & Hall & Hwin).
    apply (winnings_after_first_win x k); [done..|lia].
Qed.

(** X16: the winnings grouped by their value. Feeding the winnings of a
    simulation on a toss matrix to the partial-sum estimator at step [t],
    there are at most two keys: under the key 1 (the paths that have won)
    every next value is 1, and under the key [1 - 2^(t+1)] (the paths still
    losing, in 64 bits) every next value is 1 or [1 - 2^(t+2)]. *)
Theorem winnings_grouped_by_value {F} (np_mean : list Z -> F)
    (n_paths n_steps : Z) (X : matrix) (t : Z) :
  has_shape X n_paths n_steps -> is_toss_matrix X ->
  n_paths <= int_max -> n_steps <= int_max ->
  0 <= t < n_steps - 1 ->
  exists B W groups,
    simulate_martingale_betting_strategy n_paths n_steps X = Ok (X, B, W) /\
    sum_groups (NdArray n_paths n_steps W) t = Ok groups /\
    estimate_conditional_expectation_sums np_mean (NdArray n_paths n_steps W) t
    = Ok (np_mean <$> groups) /\
    (forall k vs v, groups !! k = Some vs -> v ∈ vs ->
       (k = 1 /\ v = 1) \/
       (k = wrap (1 - 2 ^ (t + 1)) /\ (v = 1 \/ v = wrap (1 - 2 ^ (t + 2))))) /\
    (size groups <= 2)%nat.
Proof.
  intros HS Htoss Hmp Hms Ht.
  assert (HW : has_shape (winnings_row <$> X) n_paths n_steps)
    by (by apply fmap_has_shape; [apply length_winnings_row|]).
  assert (Hwf : wf_ndarray (NdArray n_paths n_steps (winnings_row <$> X)))
    by (by split).
  destruct (sum_estimator_groups np_mean _ t Hwf Ht)
    as (groups & Hg & Hest & Hl & _ & Hdom).
  cbn [rows_of shape1] in *.
  assert (Hrows : forall S, S ∈ winnings_row <$> X ->
            (sum_key t S = 1 /\ next_value t S = 1) \/
            (sum_key t S = wrap (1 - 2 ^ (t + 1)) /\
             (next_value t S = 1 \/ next_value t S = wrap (1 - 2 ^ (t + 2))))).
  { intros S HSin. apply list_elem_of_fmap in HSin as (x & -> & Hx).
    destruct HS as (_ & _ & HR).
    pose proof (proj1 (Forall_forall _ _) HR x Hx) as Lx. cbn in Lx.
    pose proof (proj1 (Forall_forall _ _) Htoss x Hx) as Hrow.
    unfold sum_key, next_value.
    replace (Z.to_nat (t + 1)) with (S (Z.to_nat t)) by lia.
    rewrite !winnings_row_total by lia.
    replace (t + 1) with (Z.of_nat (S (Z.to_nat t))) by lia.
    replace (t + 2) with (Z.of_nat (S (S (Z.to_nat t)))) by lia.
    destruct (winnings_toss_cases x (Z.to_nat t) Hrow ltac:(lia)) as [[E ->]|[E ->]];
      destruct (winnings_toss_cases x (S (Z.to_nat t)) Hrow ltac:(lia))
        as [[E' ->]|[E' ->]]; auto.
    by rewrite (all_losses_false_mono x (S (Z.to_nat t)) (S (S (Z.to_nat t))))
      in E' by (lia || done). }
  exists (stakes_row <$> X), (winnings_row <$> X), groups.
  split; [by apply simulate_ok|]. split; [done|]. split; [done|]. split.
  - intros k vs v Hk Hv. apply Hl in Hk as [_ ->].
    apply list_elem_of_fmap in Hv as (S & -> & HSin).
    apply list_elem_of_filter in HSin as [<- HSin]. by apply Hrows.
  - apply (size_le_keys groups [1; wrap (1 - 2 ^ (t + 1))]).
    intros k Hsome.
    assert (Hs : is_Some ((np_mean <$> groups) !! k))
      by (by rewrite lookup_fmap, fmap_is_Some).
    apply Hdom in Hs as (S & HSin & <-).
    destruct (Hrows S HSin) as [[-> _]|[-> _]]; [left | right; left].
Qed.

Lemma winnings_grouped_by_value_witness :
  exists B W groups,
    simulate_martingale_betting_strategy 3 4 twin_paths = Ok (twin_paths, B, W) /\
    sum_groups (NdArray 3 4 W) 1 = Ok groups /\
    estimate_conditional_expectation_sums np_mean_f64 (NdArray 3 4 W) 1
    = Ok (np_mean_f64 <$> groups) /\
    (forall k vs v, groups !! k = Some vs -> v ∈ vs ->
       (k = 1 /\ v = 1) \/
       (k = wrap (1 - 2 ^ (1 + 1)) /\ (v = 1 \/ v = wrap (1 - 2 ^ (1 + 2))))) /\
    (size groups <= 2)%nat.
Proof.
  apply (winnings_grouped_by_value np_mean_f64 3 4 twin_paths 1).
  - repeat split; [lia | repeat constructor].
  - repeat constructor; lia.
  - vm_compute. discriminate.
  - vm_compute. discriminate.
  - lia.
Defined.
